(** * n8n-nodes-transcribe-audio: the audio-normalisation pipeline of the
    Audio Transcribe node.

    The repository holds two near-duplicate implementations of the node's
    [execute] method:

    - [NodeA]: nodes/AudioTranscribeNode/AudioTranscribe.node.ts, which
      feeds MPEG input through ffmpeg and appends failure records to the
      input array itself;
    - [NodeB]: the second AudioTranscribe.node.ts, which reads the binary
      buffer through the host helper, has the ffmpeg branch commented out
      and collects its output in [returnData].

    Both share the downmix/scale step word for word.  JavaScript numbers are
    IEEE 754 binary64, modelled by the kernel's primitive floats. *)

From Stdlib Require Import Floats.
From stdpp Require Import base option list strings gmap pretty.

Set Default Proof Using "Type".
Open Scope string_scope.
Open Scope list_scope.

(** ** Errors and results of fallible calls *)

(** What a JavaScript [throw] carries, as far as [execute] looks at it: a
    [NodeOperationError] has a message and a [context] with the item index;
    every other error (a [TypeError], what a library throws) has a name and
    a message and no [context]. *)
Inductive Error : Type :=
| NodeOperationError (message : string) (itemIndex : nat)
| ForeignError (name message : string).

Definition errMessage (e : Error) : string :=
  match e with
  | NodeOperationError m _ => m
  | ForeignError _ m => m
  end.

(** [error.context] is truthy exactly for the host's own error class. *)
Definition hasContext (e : Error) : bool :=
  match e with
  | NodeOperationError _ _ => true
  | ForeignError _ _ => false
  end.

Inductive Outcome (A : Type) : Type :=
| Ok (a : A)
| Throw (e : Error).
Arguments Ok {A} a.
Arguments Throw {A} e.

(** Reading a property of [undefined]. *)
Definition TypeError_undefined : Error :=
  ForeignError "TypeError" "Cannot read properties of undefined".

(** The spec's error taxonomy, as the code raises it. *)
Definition MissingInput (itemIndex : nat) : Error :=
  NodeOperationError "No binary data found on item!" itemIndex.

Definition ConversionFailed (detail : string) (itemIndex : nat) : Error :=
  NodeOperationError ("Conversion failed: " +:+ detail) itemIndex.

(** ** Samples *)

Definition sample : Type := float.
Bind Scope float_scope with sample.

(** Closed interval [-1.0, 1.0], by the IEEE comparison (false on NaN). *)
Definition inUnitRange (x : sample) : bool :=
  ((-1) <=? x)%float && (x <=? 1)%float.

(** Modelled from the spec: the wavefile package (class WaveFile) is a
    dependency whose code is not under src/.  A PcmBuffer is a decoded
    uncompressed audio buffer: sample rate, sample format and one sample
    sequence per channel; the channel count is the number of sequences. *)
Record PcmBuffer : Type := mkPcm {
  sampleRate : Z;
  bitDepth : string;
  channels : list (list sample);
}.

Definition numChannels (w : PcmBuffer) : nat := length (channels w).

(** What [wav.getSamples()] hands back: a flat [Float64Array], or an
    [Array] with one [Float64Array] per channel.  [Array.isArray] tells
    the two apart. *)
Inductive AudioData : Type :=
| Samples (s : list sample)
| Channels (chs : list (list sample)).

(** Modelled from the spec: [getSamples] belongs to the wavefile package,
    which is not under src/.  It hands the downmix step the buffer's
    per-channel sample sequences; for a single channel that is the flat
    sample array itself, the case [execute] tells apart with
    [Array.isArray]. *)
Definition getSamples (w : PcmBuffer) : AudioData :=
  match channels w with
  | [] => Samples []
  | [s] => Samples s
  | chs => Channels chs
  end.

(** Storing a number as a 32-bit float: rounding to the nearest value with
    a 24-bit significand. *)
Definition fround (x : sample) : sample :=
  match Prim2SF x with
  | S754_finite s m e =>
      SF2Prim (SpecFloat.binary_normalize 24 128 (if s then Z.neg m else Z.pos m) e s)
  | _ => x
  end.

(** Modelled from the spec: the bit-depth conversion belongs to the
    wavefile package, which is not under src/.  "16-bit signed integer
    values are divided by their maximum magnitude": 32767 for a positive
    value and 32768 for every other one, and the quotient is stored as a
    32-bit float. *)
Definition int16ToFloat (x : sample) : sample :=
  fround (if (0 <? x)%float then (x / 32767)%float else (x / 32768)%float).

(** ** The downmix/scale step (identical in both files) *)

Definition SCALING_FACTOR : sample := PrimFloat.sqrt 2.

(** [SCALING_FACTOR * (l + r) / 2], with JavaScript's left-to-right
    grouping of [*] and [/]. *)
Definition mix (l r : sample) : sample :=
  (SCALING_FACTOR * (l + r) / 2)%float.

(** Reading a typed array out of range gives [undefined], which the
    addition turns into NaN. *)
Definition sampleAt (c : list sample) (i : nat) : sample :=
  default nan (c !! i).

(** [for (let i = 0; i < audioData.length; i++)
       audioData[0][i] = SCALING_FACTOR * (audioData[0][i] + audioData[1][i]) / 2;]
    with [n] iterations left and [c0], [c1] the arrays [audioData[0]] and
    [audioData[1]].  A write past the end of a typed array is dropped, as
    stdpp's list insert does. *)
Fixpoint mixLoop (n i : nat) (c0 c1 : list sample) : list sample :=
  match n with
  | 0 => c0
  | S n' => mixLoop n' (S i) (<[i := mix (sampleAt c0 i) (sampleAt c1 i)]> c0) c1
  end.

(** The value left in [audioData] after the step: [None] is [undefined]
    (an empty outer array). *)
Definition downmix (audioData : AudioData) : Outcome (option (list sample)) :=
  match audioData with
  | Samples s => Ok (Some s)
  | Channels [] => Ok None
  | Channels [ _ ] => Throw TypeError_undefined
  | Channels (c0 :: c1 :: rest) =>
      Ok (Some (mixLoop (length (c0 :: c1 :: rest)) 0 c0 c1))
  end.

(** ** Work items *)

Definition Bytes : Type := list Byte.byte.

(** JSON values as far as the node touches them; the transcription result
    is opaque to it. *)
Inductive JValue : Type :=
| JString (s : string)
| JNumber (z : Z)
| JTranscription (text : string).

(** [IBinaryData.data] is declared a string; [execute] of [NodeA] still
    tests [typeof] and reports the type name it found. *)
Inductive BinaryPayload : Type :=
| PayloadString (base64 : string)
| PayloadOther (typeofName : string).

Record IBinaryData : Type := mkBinary {
  data : BinaryPayload;
  mimeType : string;
  fileExtension : option string;
}.

(** [INodeExecutionData]: [binary = None] is [item.binary === undefined]. *)
Record Item : Type := mkItem {
  json : gmap string JValue;
  binary : option (gmap string IBinaryData);
  error : option Error;
  pairedItem : option nat;
}.

(** ** The external transcoding engine, as fluent-ffmpeg presents it *)

Record FfmpegRequest : Type := mkRequest {
  format : string;
  audioCodec : string;
  audioFrequency : Z;
  audioChannels : Z;
}.

(** How a run settles: the ['end'] event or the ['error'] event, each with
    the captured standard output and standard error. *)
Inductive FfmpegFinish : Type :=
| FfmpegEnd (stdout stderr : string)
| FfmpegError (message stdout stderr : string).

(** One run of the engine: the ['start'] event's command line (when it
    fires), the chunks of the ['data'] events in order, and how it settled. *)
Record FfmpegRun : Type := mkRun {
  commandLine : option string;
  dataChunks : list Bytes;
  finish : FfmpegFinish;
}.

(** How fluent-ffmpeg settles a run once the process is over.  Modelled
    from the fluent-ffmpeg package (lib/processor.js, lib/utils.js), which
    is a dependency and not under src/: an exit with a non-zero code is
    reported as an error whose message is "ffmpeg exited with code N"
    followed by ": " and the last lines of the captured standard error, a
    kill by a signal as an error without them, and an exit with code 0 as
    the ['end'] event.  [stdout] and [stderr] are the captured texts the
    handlers receive. *)
Module FluentFfmpeg.

Definition newline : string := String (Ascii.ascii_of_nat 10) EmptyString.

(** [text.split(/\r\n|\r|\n/g)] *)
Fixpoint splitLines (text : string) : list string :=
  match text with
  | EmptyString => [EmptyString]
  | String c rest =>
      if decide (c = Ascii.ascii_of_nat 13) then
        match rest with
        | String c' rest' =>
            if decide (c' = Ascii.ascii_of_nat 10) then EmptyString :: splitLines rest'
            else EmptyString :: splitLines rest
        | EmptyString => EmptyString :: splitLines rest
        end
      else if decide (c = Ascii.ascii_of_nat 10) then EmptyString :: splitLines rest
      else
        match splitLines rest with
        | line :: more => String c line :: more
        | [] => [String c EmptyString]
        end
  end.

(** [message.charAt(0) === ' ' || message.charAt(0) === '['] *)
Definition startsIndented (line : string) : bool :=
  match line with
  | String c _ =>
      bool_decide (c = Ascii.ascii_of_nat 32) || bool_decide (c = Ascii.ascii_of_nat 91)
  | EmptyString => false
  end.

(** The step of [extractError]'s [reduce]: a line that starts with a space
    or a square bracket discards what was collected, any other line is
    collected. *)
Definition keepLast (messages : list string) (message : string) : list string :=
  if startsIndented message then [] else messages ++ [message].

(** [utils.extractError(stderr)]: the lines after the last one that starts
    with a space or a square bracket, joined by newlines. *)
Definition extractError (stderr : string) : string :=
  String.concat newline (foldl keepLast [] (splitLines stderr)).

(** How the process ended: the arguments of its ['exit'] event. *)
Inductive ProcessExit : Type :=
| Exited (code : nat)
| Killed (signal : string).

Definition settle (exit : ProcessExit) (stdout stderr : string) : FfmpegFinish :=
  match exit with
  | Killed signal => FfmpegError ("ffmpeg was killed with signal " +:+ signal) stdout stderr
  | Exited 0 => FfmpegEnd stdout stderr
  | Exited code =>
      FfmpegError ("ffmpeg exited with code " +:+ pretty code +:+ ": "
                   +:+ extractError stderr) stdout stderr
  end.

End FluentFfmpeg.

(** ** Effects *)

(** Calls that leave the node, with the arguments the code chooses: to the
    host, the logger, the model library, the transcoding engine and the
    wavefile package.  The calls without such arguments are not recorded
    in the trace: [this.getNode()], [this.continueOnFail()] (a field of
    [Env]), [wav.getSamples()] (the function [getSamples]),
    [performance.now()] (through [elapsed]), the first [this.getInputData()]
    (the initial [items]) and [this.prepareOutputData] (the value
    returned). *)
Inductive Event : Type :=
| EvGetNodeParameter (name : string) (itemIndex : nat)
| EvGetInputData (inputIndex : nat)
| EvGetBinaryDataBuffer (itemIndex : nat) (name : string)
| EvLogInfo (msg : string)
| EvLogError (msg : string)
| EvPipeline (task model : string)
| EvFfmpeg (request : FfmpegRequest) (input : Bytes)
| EvWaveFile (buffer : Bytes)
| EvToBitDepth (depth : string)
| EvToSampleRate (rate : Z)
| EvTranscriber (audioData : option (list sample)) (options : option (Z * Z)).

(** The mutable state of one run: the input array [items] (input 0 of the
    node, the very array the host handed out), [returnData] ([NodeB]) and
    the calls made so far, oldest first. *)
Record World : Type := mkWorld {
  items : list Item;
  returnData : list Item;
  events : list Event;
}.

(** The collaborators of [execute]: the host ([IExecuteFunctions]), the
    model library, the engine and the wavefile package.  None of them is
    code of this repository. *)
Record Env : Type := mkEnv {
  getNodeParameter : string -> nat -> string;
  continueOnFail : bool;
  (** inputs 1, 2, ... of the node, for [getInputData(k)] with [k > 0] *)
  otherInputs : list (list Item);
  (** what is raised when input [k] or its first item does not exist *)
  inputUnavailable : nat -> Error;
  getBinaryDataBuffer : Item -> string -> Outcome Bytes;
  (** [getInitializedTransformers()]: [Some e] when the import fails *)
  initTransformers : option Error;
  (** [pipeline(task, model)]: [Some e] when the model fails to load *)
  pipeline : string -> string -> option Error;
  transcriber : string -> option (list sample) -> option (Z * Z) -> Outcome JValue;
  base64Decode : string -> Bytes;
  ffmpeg : FfmpegRequest -> Bytes -> FfmpegRun;
  (** [new WaveFile(bytes)] *)
  WaveFile : Bytes -> Outcome PcmBuffer;
  toBitDepth : string -> PcmBuffer -> Outcome PcmBuffer;
  toSampleRate : Z -> PcmBuffer -> Outcome PcmBuffer;
  (** [end - start] of [performance.now()], rendered, for an item *)
  elapsed : nat -> string;
}.

(** State and exceptions: a computation runs in a world and either yields a
    value or throws; the world it leaves is kept in both cases. *)
Definition M (A : Type) : Type := World -> Outcome A * World.

Global Instance M_ret : MRet M := fun A a w => (Ok a, w).

Global Instance M_bind : MBind M := fun A B f m w =>
  match m w with
  | (Ok a, w') => f a w'
  | (Throw e, w') => (Throw e, w')
  end.

Definition throw {A : Type} (e : Error) : M A := fun w => (Throw e, w).

Definition liftOutcome {A : Type} (o : Outcome A) : M A := fun w => (o, w).

Definition emit (ev : Event) : M unit := fun w =>
  (Ok tt, mkWorld (items w) (returnData w) (events w ++ [ev])).

Definition getItems : M (list Item) := fun w => (Ok (items w), w).

Definition setItems (l : list Item) : M unit := fun w =>
  (Ok tt, mkWorld l (returnData w) (events w)).

Definition pushReturnData (it : Item) : M unit := fun w =>
  (Ok tt, mkWorld (items w) (returnData w ++ [it]) (events w)).

(** [try { m } catch (error) { h error }] *)
Definition tryCatch {A : Type} (m : M A) (h : Error -> M A) : M A := fun w =>
  match m w with
  | (Ok a, w') => (Ok a, w')
  | (Throw e, w') => h e w'
  end.

(** [for (let itemIndex = i; itemIndex < items.length; itemIndex++) body(itemIndex)]:
    the bound is read again before every iteration.  [None] when the fuel
    runs out before the loop ends. *)
Fixpoint forLoop (body : nat -> M unit) (fuel itemIndex : nat) (w : World)
  : option (Outcome unit * World) :=
  match fuel with
  | 0 => None
  | S fuel' =>
      if decide (itemIndex < length (items w)) then
        match body itemIndex w with
        | (Ok _, w') => forLoop body fuel' (S itemIndex) w'
        | (Throw e, w') => Some (Throw e, w')
        end
      else Some (Ok tt, w)
  end.

(** A string between double quotes, for the log templates. *)
Definition quoted (s : string) : string :=
  String.String (Ascii.ascii_of_nat 34) (s +:+ String.String (Ascii.ascii_of_nat 34) "").

Section Shared.
Context (env : Env).

Definition readParameter (name : string) (itemIndex : nat) : M string :=
  emit (EvGetNodeParameter name itemIndex);;
  mret (getNodeParameter env name itemIndex).

Definition logInfo (msg : string) : M unit := emit (EvLogInfo msg).
Definition logError (msg : string) : M unit := emit (EvLogError msg).

(** [items[itemIndex]]: [None] is [undefined], past the end of the array. *)
Definition itemAt (itemIndex : nat) : M (option Item) := fun w =>
  (Ok (items w !! itemIndex), w).

(** [await pipeline('automatic-speech-recognition', model, ...)] *)
Definition loadPipeline (model : string) : M unit :=
  emit (EvPipeline "automatic-speech-recognition" model);;
  match pipeline env "automatic-speech-recognition" model with
  | None => mret tt
  | Some e => throw e
  end.

(** [await transcriber(audioData, options)] *)
Definition callTranscriber (model : string) (audioData : option (list sample))
    (options : option (Z * Z)) : M JValue :=
  emit (EvTranscriber audioData options);;
  liftOutcome (transcriber env model audioData options).

(** The Waveform Normalizer:
    [const wav = new WaveFile(buffer); wav.toBitDepth('32f'); wav.toSampleRate(16000);] *)
Definition normalize (buffer : Bytes) : M PcmBuffer :=
  emit (EvWaveFile buffer);;
  wav ← liftOutcome (WaveFile env buffer);
  emit (EvToBitDepth "32f");;
  wav1 ← liftOutcome (toBitDepth env "32f" wav);
  emit (EvToSampleRate 16000);;
  liftOutcome (toSampleRate env 16000 wav1).

(** The normalizer followed by the downmix/scale step on [wav.getSamples()]. *)
Definition normalizedAudio (buffer : Bytes) : M (option (list sample)) :=
  wav ← normalize buffer;
  liftOutcome (downmix (getSamples wav)).

(** The rethrow of the [catch] block when the run is to abort:
    [if (error.context) { error.context.itemIndex = itemIndex; throw error }
     throw new NodeOperationError(this.getNode(), error, { itemIndex })] *)
Definition rethrow (itemIndex : nat) (e : Error) : Error :=
  if hasContext e then
    match e with
    | NodeOperationError m _ => NodeOperationError m itemIndex
    | ForeignError _ _ => e
    end
  else NodeOperationError (errMessage e) itemIndex.
End Shared.

(** ** The node description (both files)

    [description.properties], the parameters the host shows and hands to
    [getNodeParameter].  The two files differ in the default of "model"
    only. *)

Module Description.

(** An entry of an [options] list. *)
Record INodePropertyOptions : Type := mkOption {
  optionName : string;
  optionValue : string;
  optionDescription : string;
  optionAction : string;
}.

Inductive PropertyType : Type := TypeOptions | TypeString.

(** A parameter.  [noDataExpression] and [required] are [false] where the
    literal leaves them out; [show] is [displayOptions.show], empty where
    the literal has no [displayOptions]. *)
Record INodeProperties : Type := mkProperty {
  displayName : string;
  name : string;
  type : PropertyType;
  description : string;
  noDataExpression : bool;
  required : bool;
  show : list (string * list string);
  options : list INodePropertyOptions;
  defaultValue : string;
}.

Definition MODELS_LIST : list string :=
  ["Xenova/whisper-tiny.en"; "Xenova/whisper-base.en"; "Xenova/whisper-small.en";
   "Xenova/whisper-medium.en"].

(** [MODELS_LIST.map(model => ({ name: model, value: model, description: model,
      action: `Transcribes audio from a binary file with ${model}` }))] *)
Definition modelOptions (models : list string) : list INodePropertyOptions :=
  (fun model => mkOption model model model
                  ("Transcribes audio from a binary file with " +:+ model)) <$> models.

Definition operationProperty : INodeProperties :=
  mkProperty "Operation" "operation" TypeOptions "The description text" true false []
    [mkOption "Transcribe" "transcribe" "Transcribe audio" "Transcribe audio"]
    "transcribe".

Definition audioInputTypeProperty : INodeProperties :=
  mkProperty "Audio Input Type" "audioInputType" TypeOptions "The description text"
    true false [("operation", ["transcribe"])]
    [mkOption "Binary File" "binaryFile" "Transcribes audio from a binary file"
       "Transcribes audio from a binary file"]
    "binaryFile".

Definition binaryPropertyNameProperty : INodeProperties :=
  mkProperty "Binary Property Name" "binaryPropertyName" TypeString
    "The name of the binary property to use for transcription" false true
    [("operation", ["transcribe"]); ("audioInputType", ["binaryFile"])]
    [] "data".

Definition modelProperty (default : string) : INodeProperties :=
  mkProperty "Model" "model" TypeOptions "The model to use for transcription"
    true false [("operation", ["transcribe"])] (modelOptions MODELS_LIST) default.

(** nodes/AudioTranscribeNode/AudioTranscribe.node.ts *)
Definition propertiesA : list INodeProperties :=
  [operationProperty; audioInputTypeProperty; binaryPropertyNameProperty;
   modelProperty "Xenova/whisper-tiny.en"].

(** The second file: [default: ''] for "model". *)
Definition propertiesB : list INodeProperties :=
  [operationProperty; audioInputTypeProperty; binaryPropertyNameProperty;
   modelProperty ""].

End Description.

(** ** [getInitializedTransformers] (nodes/AudioTranscribeNode/AudioTranscribe.node.ts)

    The module keeps the promise of the first import in [transformersPromise]
    and hands the same promise to every later caller. *)

Module Transformers.

(** The settings of the library the function touches: [T.env]. *)
Record TransformersEnv : Type := mkTEnv {
  allowLocalModels : bool;
  useBrowserCache : bool;
}.

(** Module state: [transformersPromise] ([None] is [null]; a promise is
    known by how it settles) and the number of [import()] calls made. *)
Record ModuleState : Type := mkState {
  transformersPromise : option (Outcome TransformersEnv);
  imports : nat;
}.

Definition initialState : ModuleState := mkState None 0.

(** [importModule n] is how the [n]-th [import('@huggingface/transformers')]
    settles: the module with its settings as shipped, or an error. *)
Definition getInitializedTransformers (importModule : nat -> Outcome TransformersEnv)
    (st : ModuleState) : Outcome TransformersEnv * ModuleState :=
  match transformersPromise st with
  | None =>
      let p :=
        match importModule (imports st) with
        | Ok T => Ok (mkTEnv true false)
        | Throw e => Throw e
        end in
      (p, mkState (Some p) (S (imports st)))
  | Some p => (p, st)
  end.

(** [n] calls one after the other; the results, first call first. *)
Fixpoint calls (importModule : nat -> Outcome TransformersEnv) (n : nat)
    (st : ModuleState) : list (Outcome TransformersEnv) * ModuleState :=
  match n with
  | 0 => ([], st)
  | S n' =>
      let '(r, st1) := getInitializedTransformers importModule st in
      let '(rs, st2) := calls importModule n' st1 in
      (r :: rs, st2)
  end.

End Transformers.

(** ** nodes/AudioTranscribeNode/AudioTranscribe.node.ts *)

Module NodeA.
Section Execute.
Context (env : Env).

(** The Format Prober:
    [mimeType === 'audio/mpeg' || mimeType === 'audio/mp3' || fileExtension === 'mp3'] *)
Definition needsTranscode (mime : string) (ext : option string) : bool :=
  bool_decide (mime = "audio/mpeg") || bool_decide (mime = "audio/mp3")
  || bool_decide (ext = Some "mp3").

(** [.format('wav').audioCodec('pcm_s16le').audioFrequency(16000).audioChannels(1)] *)
Definition transcodeRequest : FfmpegRequest := mkRequest "wav" "pcm_s16le" 16000 1.

(** The Transcoder Adapter: the promise around the ffmpeg command.  The
    ['error'] handler logs both captured streams and rejects; the ['end']
    handler resolves with the concatenated chunks. *)
Definition transcode (itemIndex : nat) (buffer : Bytes) : M Bytes :=
  emit (EvFfmpeg transcodeRequest buffer);;
  let run := ffmpeg env transcodeRequest buffer in
  match commandLine run with
  | Some c => logInfo ("Conversion started: " +:+ c)
  | None => mret tt
  end;;
  match finish run with
  | FfmpegError message stdout stderr =>
      logError ("Std out: " +:+ stdout);;
      logError ("Std err: " +:+ stderr);;
      throw (NodeOperationError ("Conversion failed: " +:+ message) itemIndex)
  | FfmpegEnd _ _ => mret (concat (dataChunks run))
  end.

(** The [if]/[else] that fills [audioBufferWav]. *)
Definition audioBufferWav (itemIndex : nat) (binaryItem : IBinaryData)
    (buffer : Bytes) : M Bytes :=
  if needsTranscode (mimeType binaryItem) (fileExtension binaryItem) then
    transcode itemIndex buffer
  else
    logInfo ("Input (item " +:+ pretty itemIndex +:+ ", mime: " +:+ mimeType binaryItem
             +:+ ", ext: " +:+ default "undefined" (fileExtension binaryItem)
             +:+ ") assumed to be WAV. Using directly.");;
    mret buffer.

(** [item.json.transcription = result]: the item is the element of
    [items] itself. *)
Definition setTranscription (itemIndex : nat) (result : JValue) : M unit :=
  l ← getItems;
  setItems (alter (fun it => mkItem (<["transcription" := result]> (json it))
                                    (binary it) (error it) (pairedItem it))
                  itemIndex l).

(** The body of the outer [try].  The inner [try]/[catch]/[finally] around
    the downmix only rethrows and is left out. *)
Definition tryBlock (itemIndex : nat) : M unit :=
  operation ← readParameter env "operation" itemIndex;
  audioInputType ← readParameter env "audioInputType" itemIndex;
  binaryPropertyName ← readParameter env "binaryPropertyName" itemIndex;
  model ← readParameter env "model" itemIndex;
  item ← itemAt itemIndex;
  if decide (operation = "transcribe") then
    if decide (audioInputType = "binaryFile") then
      match item with
      | None => throw TypeError_undefined
      | Some item =>
      match binary item with
      | None => throw (MissingInput itemIndex)
      | Some bin =>
          logInfo ("Attempting to load model: " +:+ quoted model
                   +:+ " for item index " +:+ pretty itemIndex);;
          loadPipeline env model;;
          match bin !! binaryPropertyName with
          | None => throw TypeError_undefined
          | Some binaryItem =>
              match data binaryItem with
              | PayloadOther ty =>
                  throw (NodeOperationError
                           ("Expected binary data to be a string! Received type: " +:+ ty)
                           itemIndex)
              | PayloadString s =>
                  wavBytes ← audioBufferWav itemIndex binaryItem (base64Decode env s);
                  audioData ← normalizedAudio env wavBytes;
                  result ← callTranscriber env model audioData None;
                  logInfo ("Transcription took " +:+ elapsed env itemIndex +:+ "ms");;
                  setTranscription itemIndex result
              end
          end
      end
      end
    else mret tt
  else mret tt.

(** [this.getInputData(itemIndex)[0].json]: the item index is passed where
    the host expects an input index.  Input 0 is [items] itself. *)
Definition firstJsonOfInput (inputIndex : nat) : M (gmap string JValue) :=
  emit (EvGetInputData inputIndex);;
  l ← getItems;
  match (match inputIndex with 0 => Some l | S k => otherInputs env !! k end) with
  | Some (first :: _) => mret (json first)
  | _ => throw (inputUnavailable env inputIndex)
  end.

(** The outer [catch]. *)
Definition catchBlock (itemIndex : nat) (e : Error) : M unit :=
  if continueOnFail env then
    j ← firstJsonOfInput itemIndex;
    l ← getItems;
    setItems (l ++ [mkItem j None (Some e) (Some itemIndex)])
  else throw (rethrow itemIndex e).

Definition iteration (itemIndex : nat) : M unit :=
  tryCatch (tryBlock itemIndex) (catchBlock itemIndex).

(** [execute]: [return [items]] after the loop. *)
Definition execute (fuel : nat) (w : World)
  : option (Outcome (list (list Item)) * World) :=
  match initTransformers env with
  | Some e => Some (Throw e, w)
  | None =>
      match forLoop iteration fuel 0 w with
      | None => None
      | Some (Ok _, w') => Some (Ok [items w'], w')
      | Some (Throw e, w') => Some (Throw e, w')
      end
  end.

End Execute.
End NodeA.

(** ** The second AudioTranscribe.node.ts *)

Module NodeB.
Section Execute.
Context (env : Env).

(** The body of the [try]. *)
Definition tryBlock (itemIndex : nat) : M unit :=
  operation ← readParameter env "operation" itemIndex;
  audioInputType ← readParameter env "audioInputType" itemIndex;
  binaryPropertyName ← readParameter env "binaryPropertyName" itemIndex;
  model ← readParameter env "model" itemIndex;
  item ← itemAt itemIndex;
  if decide (operation = "transcribe") then
    if decide (audioInputType = "binaryFile") then
      match item with
      | None => throw TypeError_undefined
      | Some item =>
      match binary item with
      | None => throw (MissingInput itemIndex)
      | Some _ =>
          logInfo ("Attempting to load model: " +:+ quoted model
                   +:+ " for item index " +:+ pretty itemIndex);;
          loadPipeline env model;;
          logInfo ("Model " +:+ quoted model
                   +:+ " loaded successfully for item index " +:+ pretty itemIndex);;
          emit (EvGetBinaryDataBuffer itemIndex binaryPropertyName);;
          buffer ← liftOutcome (getBinaryDataBuffer env item binaryPropertyName);
          audioData ← normalizedAudio env buffer;
          logInfo ("Starting transcription for item index " +:+ pretty itemIndex);;
          result ← callTranscriber env model audioData (Some (30, 5)%Z);
          logInfo ("Transcription took " +:+ elapsed env itemIndex +:+ "ms");;
          pushReturnData (mkItem (<["transcription" := result]> (json item))
                                 (binary item) (error item) (pairedItem item))
      end
      end
    else mret tt
  else mret tt.

(** The [catch]. *)
Definition catchBlock (itemIndex : nat) (e : Error) : M unit :=
  if continueOnFail env then
    item ← itemAt itemIndex;
    match item with
    | None => throw TypeError_undefined
    | Some item => pushReturnData (mkItem (json item) None (Some e) (Some itemIndex))
    end
  else throw (rethrow itemIndex e).

Definition iteration (itemIndex : nat) : M unit :=
  tryCatch (tryBlock itemIndex) (catchBlock itemIndex).

(** [execute]: [return this.prepareOutputData(returnData)]. *)
Definition execute (fuel : nat) (w : World)
  : option (Outcome (list (list Item)) * World) :=
  match forLoop iteration fuel 0 w with
  | None => None
  | Some (Ok _, w') => Some (Ok [returnData w'], w')
  | Some (Throw e, w') => Some (Throw e, w')
  end.

End Execute.
End NodeB.

(** The world at the start of a run on the given input items. *)
Definition initialWorld (input : list Item) : World := mkWorld input [] [].

(** ** A concrete environment

    Stand-ins for the collaborators, so that runs can be evaluated: a host
    with fixed parameters and a single input, an engine that fails on empty
    input, and a WAV codec over a toy container (one byte with the channel
    count, then interleaved 16-bit little-endian samples at 16000 Hz). *)

Module Demo.

Definition parameters (name : string) (_ : nat) : string :=
  if decide (name = "operation") then "transcribe"
  else if decide (name = "audioInputType") then "binaryFile"
  else if decide (name = "binaryPropertyName") then "data"
  else if decide (name = "model") then "Xenova/whisper-tiny.en"
  else "".

Definition int16 (lo hi : Byte.byte) : Z :=
  let u := (Z.of_N (Byte.to_N lo) + 256 * Z.of_N (Byte.to_N hi))%Z in
  if (u <? 32768)%Z then u else (u - 65536)%Z.

Definition floatOfZ (z : Z) : sample :=
  if (z <? 0)%Z then (- PrimFloat.of_uint63 (Uint63.of_Z (- z)))%float
  else PrimFloat.of_uint63 (Uint63.of_Z z).

Fixpoint samples16 (b : Bytes) : list sample :=
  match b with
  | lo :: hi :: rest => floatOfZ (int16 lo hi) :: samples16 rest
  | _ => []
  end.

Definition deInterleave (n : nat) (l : list sample) : list (list sample) :=
  map (fun k => omap (fun j => l !! (j * n + k)) (seq 0 (length l / n))) (seq 0 n).

Definition parseWav (b : Bytes) : Outcome PcmBuffer :=
  match b with
  | [] => Throw (ForeignError "Error" "Not a supported format.")
  | n :: payload =>
      Ok (mkPcm 16000 "16" (deInterleave (N.to_nat (Byte.to_N n)) (samples16 payload)))
  end.

(** Bit-depth conversion: [int16ToFloat] on every sample of a 16-bit
    buffer. *)
Definition convertBitDepth (target : string) (w : PcmBuffer) : Outcome PcmBuffer :=
  if decide (target = "32f") then
    if decide (bitDepth w = "16") then
      Ok (mkPcm (sampleRate w) "32f" (map (map int16ToFloat) (channels w)))
    else if decide (bitDepth w = "32f") then Ok w
    else Throw (ForeignError "Error" "Invalid bit depth.")
  else Throw (ForeignError "Error" "Invalid bit depth.").

(** A zero-order-hold resampler: output sample [j] is input sample
    [j * old / new]. *)
Definition resample (target : Z) (w : PcmBuffer) : Outcome PcmBuffer :=
  if decide (0 < sampleRate w)%Z then
    Ok (mkPcm target (bitDepth w)
          (map (fun c =>
                  omap (fun j => c !! Z.to_nat (Z.of_nat j * sampleRate w / target))
                       (seq 0 (Z.to_nat (Z.of_nat (length c) * target / sampleRate w))))
               (channels w)))
  else Throw (ForeignError "Error" "Invalid sample rate.").

(** What the process writes to standard error on empty input: its banner,
    then the error. *)
Definition failureStderr : string :=
  "ffmpeg version 4.4 Copyright (c) 2000-2021 the FFmpeg developers"
  +:+ FluentFfmpeg.newline +:+ "  built with gcc 10"
  +:+ FluentFfmpeg.newline +:+ "pipe:0: Invalid data found when processing input".

(** The engine: on empty input the process exits with code 1, otherwise it
    exits with code 0 after emitting a one-channel container around the
    input bytes in two chunks.  The run settles as fluent-ffmpeg settles
    it. *)
Definition engine (_ : FfmpegRequest) (input : Bytes) : FfmpegRun :=
  match input with
  | [] => mkRun (Some "ffmpeg -i pipe:0 -acodec pcm_s16le -ar 16000 -ac 1 -f wav pipe:1") []
            (FluentFfmpeg.settle (FluentFfmpeg.Exited 1) "" failureStderr)
  | _ => mkRun (Some "ffmpeg -i pipe:0 -acodec pcm_s16le -ar 16000 -ac 1 -f wav pipe:1")
           [[Byte.x01]; input] (FluentFfmpeg.settle (FluentFfmpeg.Exited 0) "" "")
  end.

(** The base64 text of the examples is read one byte per character. *)
Definition decode (s : string) : Bytes := String.list_byte_of_string s.

Definition binaryBuffer (it : Item) (name : string) : Outcome Bytes :=
  match binary it ≫= (.!! name) with
  | Some (mkBinary (PayloadString s) _ _) => Ok (decode s)
  | _ => Throw (ForeignError "Error" "No binary data exists on item.")
  end.

Definition env (continue : bool) : Env := {|
  getNodeParameter := parameters;
  continueOnFail := continue;
  otherInputs := [];
  inputUnavailable := fun _ => TypeError_undefined;
  getBinaryDataBuffer := binaryBuffer;
  initTransformers := None;
  pipeline := fun _ _ => None;
  transcriber := fun _ _ _ => Ok (JTranscription "");
  base64Decode := decode;
  ffmpeg := engine;
  WaveFile := parseWav;
  toBitDepth := convertBitDepth;
  toSampleRate := resample;
  elapsed := fun _ => "0";
|}.

(** Items: one without binary data, one with a WAV payload. *)
Definition bare (name : string) : Item :=
  mkItem {[ "name" := JString name ]} None None None.

Definition withAudio (name mime : string) (payload : string) : Item :=
  mkItem {[ "name" := JString name ]}
         (Some {[ "data" := mkBinary (PayloadString payload) mime None ]}) None None.

End Demo.

(** * Vocabulary of the properties *)

(** [s] occurs in [m]. *)
Definition includes (s m : string) : Prop :=
  exists pre post, m = pre +:+ s +:+ post.

Fixpoint includesb (s m : string) : bool :=
  String.prefix s m ||
  match m with
  | EmptyString => false
  | String _ m' => includesb s m'
  end.

(** The engine keeps its promise about the encoding of what it emits: a run
    that ends normally on a request has emitted bytes encoded as requested. *)
Definition honours (engine : FfmpegRequest -> Bytes -> FfmpegRun)
    (encoded : FfmpegRequest -> Bytes -> Prop) : Prop :=
  forall req input out err,
    finish (engine req input) = FfmpegEnd out err ->
    encoded req (concat (dataChunks (engine req input))).

(** The first thing an iteration does is read the parameter "operation"
    for its item index; an item is processed as often as that read occurs
    for its index. *)
Definition isOperationRead (itemIndex : nat) (ev : Event) : bool :=
  match ev with
  | EvGetNodeParameter name j => bool_decide (name = "operation" /\ j = itemIndex)
  | _ => false
  end.

Definition timesProcessed (itemIndex : nat) (evs : list Event) : nat :=
  length (filter (fun ev => isOperationRead itemIndex ev = true) evs).

(** Every call except a read of "operation". *)
Definition quietEvent (ev : Event) : Prop :=
  match ev with
  | EvGetNodeParameter name _ => name <> "operation"
  | _ => True
  end.

(** A computation that keeps the number of [items] and the [binary] field
    of each, and makes quiet calls only. *)
Definition steady {A : Type} (m : M A) : Prop :=
  forall w,
    binary <$> items (m w).2 = binary <$> items w
    /\ exists evs, events (m w).2 = events w ++ evs /\ Forall quietEvent evs.

(** A computation that first reads "operation" for item [i] and is steady
    after that. *)
Definition readsThenSteady {A : Type} (i : nat) (m : M A) : Prop :=
  forall w,
    binary <$> items (m w).2 = binary <$> items w
    /\ exists evs,
         events (m w).2 = events w ++ EvGetNodeParameter "operation" i :: evs
         /\ Forall quietEvent evs.

(** What one iteration of either loop does to the trace and to [items]. *)
Definition IterationSpec (body : nat -> M unit) (bound : nat) : Prop :=
  forall i w,
    (exists evs,
       events (body i w).2 = events w ++ EvGetNodeParameter "operation" i :: evs
       /\ Forall quietEvent evs)
    /\ (length (items (body i w).2) = length (items w)
        \/ length (items (body i w).2) = S (length (items w)) /\ i < bound).

(** A computation that looks at [items] only at index [j], leaves [items]
    alone and only adds to [returnData] and to the trace: its result and
    what it adds are the same in any two worlds that agree on item [j]. *)
Definition local {A : Type} (j : nat) (m : M A) : Prop :=
  forall w1 w2, items w1 !! j = items w2 !! j ->
    exists r rd evs,
      m w1 = (r, mkWorld (items w1) (returnData w1 ++ rd) (events w1 ++ evs))
      /\ m w2 = (r, mkWorld (items w2) (returnData w2 ++ rd) (events w2 ++ evs)).

(** The records [NodeB] emits for item [it] at index [i]: what one
    iteration leaves in [returnData] when started with nothing emitted yet,
    in an array that holds [it] at index [i]. *)
Definition recordsFor (env : Env) (i : nat) (it : Item) : list Item :=
  returnData (NodeB.iteration env i (mkWorld (replicate (S i) it) [] [])).2.

(** A computation every run of which relates the world it starts in to the
    world it leaves by [R]. *)
Definition respects (R : relation World) {A : Type} (m : M A) : Prop :=
  forall w, R w (m w).2.

(** The trace grows by recorded calls that satisfy [P]. *)
Definition emitsOnly (P : Event -> Prop) : relation World := fun w w' =>
  exists evs, events w' = events w ++ evs /\ Forall P evs.

(** What holds of every call that [execute] of
    nodes/AudioTranscribeNode/AudioTranscribe.node.ts makes and the trace
    records: which parameters it reads, what it asks of the engine, of the
    wavefile package and of the model, and which helper it never uses.
    The calls the trace does not record ([this.getNode()],
    [this.continueOnFail()], [wav.getSamples()], [performance.now()]) are
    no part of it. *)
Definition callOfNodeA (ev : Event) : Prop :=
  match ev with
  | EvGetNodeParameter name _ => name ∈ Description.name <$> Description.propertiesA
  | EvGetInputData _ => True
  | EvGetBinaryDataBuffer _ _ => False
  | EvLogInfo _ => True
  | EvLogError _ => True
  | EvPipeline task _ => task = "automatic-speech-recognition"
  | EvFfmpeg request _ => request = mkRequest "wav" "pcm_s16le" 16000 1
  | EvWaveFile _ => True
  | EvToBitDepth depth => depth = "32f"
  | EvToSampleRate rate => rate = 16000%Z
  | EvTranscriber _ options => options = None
  end.

(** The same for [execute] of the second file, which besides makes the
    unrecorded call [this.prepareOutputData(returnData)]. *)
Definition callOfNodeB (ev : Event) : Prop :=
  match ev with
  | EvGetNodeParameter name _ => name ∈ Description.name <$> Description.propertiesB
  | EvGetInputData _ => False
  | EvGetBinaryDataBuffer _ _ => True
  | EvLogInfo _ => True
  | EvLogError _ => False
  | EvPipeline task _ => task = "automatic-speech-recognition"
  | EvFfmpeg _ _ => False
  | EvWaveFile _ => True
  | EvToBitDepth depth => depth = "32f"
  | EvToSampleRate rate => rate = 16000%Z
  | EvTranscriber _ options => options = Some (30, 5)%Z
  end.

(** [it'] is [it] up to the value of the key "transcription" in [json]. *)
Definition sameButTranscription (it it' : Item) : Prop :=
  binary it' = binary it /\ error it' = error it /\ pairedItem it' = pairedItem it
  /\ forall k, k <> "transcription" -> json it' !! k = json it !! k.

(** A failure record, as the [catch] blocks build it: no binary data, an
    error and the index of the item it stands for. *)
Definition isErrorRecord (r : Item) : Prop :=
  binary r = None /\ is_Some (error r) /\ is_Some (pairedItem r).

(** [l'] is [l], item by item up to "transcription", followed by failure
    records, which occur only if [allowPush]. *)
Definition grown (allowPush : bool) (l l' : list Item) : Prop :=
  exists kept pushed,
    l' = kept ++ pushed
    /\ Forall2 sameButTranscription l kept
    /\ Forall isErrorRecord pushed
    /\ (allowPush = false -> pushed = []).

Definition itemsGrown (allowPush : bool) : relation World := fun w w' =>
  grown allowPush (items w) (items w') /\ returnData w' = returnData w.

(** Sequencing of fallible calls without state. *)
Definition obind {A B : Type} (o : Outcome A) (f : A -> Outcome B) : Outcome B :=
  match o with
  | Ok a => f a
  | Throw e => Throw e
  end.

(** The normalizer and the downmix step as a function of the bytes. *)
Definition audioOf (env : Env) (buffer : Bytes) : Outcome (option (list sample)) :=
  obind (WaveFile env buffer) (fun wav =>
  obind (toBitDepth env "32f" wav) (fun wav32 =>
  obind (toSampleRate env 16000 wav32) (fun wav16k =>
  downmix (getSamples wav16k)))).

(** What the second file makes of item [it] at index [i], as a function of
    the collaborators' answers: the transcription, [None] when the
    parameters leave the item alone, or the error of the first step that
    fails. *)
Definition transcriptionOfB (env : Env) (i : nat) (it : Item) : Outcome (option JValue) :=
  if decide (getNodeParameter env "operation" i = "transcribe") then
    if decide (getNodeParameter env "audioInputType" i = "binaryFile") then
      match binary it with
      | None => Throw (MissingInput i)
      | Some _ =>
          match pipeline env "automatic-speech-recognition" (getNodeParameter env "model" i) with
          | Some e => Throw e
          | None =>
              obind (getBinaryDataBuffer env it (getNodeParameter env "binaryPropertyName" i))
                (fun buffer =>
              obind (audioOf env buffer) (fun audioData =>
              obind (transcriber env (getNodeParameter env "model" i) audioData
                       (Some (30, 5)%Z)) (fun result =>
              Ok (Some result))))
          end
      end
    else Ok None
  else Ok None.

(** The item with the transcription stored in its json. *)
Definition withTranscription (it : Item) (result : JValue) : Item :=
  mkItem (<["transcription" := result]> (json it)) (binary it) (error it) (pairedItem it).

(** The record that stands for the failure [e] of item [it] at index [i]. *)
Definition failureRecord (it : Item) (e : Error) (i : nat) : Item :=
  mkItem (json it) None (Some e) (Some i).

(** The records the second file emits for item [it] at index [i], by its
    outcome. *)
Definition recordsOfB (env : Env) (i : nat) (it : Item) : list Item :=
  match transcriptionOfB env i it with
  | Ok (Some result) => [withTranscription it result]
  | Ok None => []
  | Throw e => if continueOnFail env then [failureRecord it e i] else []
  end.

(** The bytes the first file hands to WAV parsing, as a function of the
    blob: what the engine emitted, or the blob's own bytes. *)
Definition wavBytesOf (env : Env) (i : nat) (binaryItem : IBinaryData) (buffer : Bytes)
  : Outcome Bytes :=
  if NodeA.needsTranscode (mimeType binaryItem) (fileExtension binaryItem) then
    match finish (ffmpeg env NodeA.transcodeRequest buffer) with
    | FfmpegError message _ _ =>
        Throw (NodeOperationError ("Conversion failed: " +:+ message) i)
    | FfmpegEnd _ _ => Ok (concat (dataChunks (ffmpeg env NodeA.transcodeRequest buffer)))
    end
  else Ok buffer.

(** What the first file makes of item [it] at index [i]: the transcription,
    [None] when the parameters leave the item alone, or the error of the
    first step that fails. *)
Definition transcriptionOfA (env : Env) (i : nat) (it : Item) : Outcome (option JValue) :=
  if decide (getNodeParameter env "operation" i = "transcribe") then
    if decide (getNodeParameter env "audioInputType" i = "binaryFile") then
      match binary it with
      | None => Throw (MissingInput i)
      | Some bin =>
          match pipeline env "automatic-speech-recognition" (getNodeParameter env "model" i) with
          | Some e => Throw e
          | None =>
              match bin !! getNodeParameter env "binaryPropertyName" i with
              | None => Throw TypeError_undefined
              | Some binaryItem =>
                  match data binaryItem with
                  | PayloadOther ty =>
                      Throw (NodeOperationError
                               ("Expected binary data to be a string! Received type: " +:+ ty)
                               i)
                  | PayloadString s =>
                      obind (wavBytesOf env i binaryItem (base64Decode env s))
                        (fun wavBytes =>
                      obind (audioOf env wavBytes) (fun audioData =>
                      obind (transcriber env (getNodeParameter env "model" i) audioData None)
                        (fun result =>
                      Ok (Some result))))
                  end
              end
          end
      end
    else Ok None
  else Ok None.

(** The item as the first file leaves it in the array when it does not
    fail: with the transcription stored, if there is one. *)
Definition updatedA (env : Env) (i : nat) (it : Item) : Item :=
  match transcriptionOfA env i it with
  | Ok (Some result) => withTranscription it result
  | _ => it
  end.

(** The host hands out, for every parameter of type [options], one of the
    values its description offers. *)
Definition hostRespects (props : list Description.INodeProperties) (env : Env) : Prop :=
  forall p, p ∈ props -> Description.type p = Description.TypeOptions ->
    forall k, getNodeParameter env (Description.name p) k
              ∈ Description.optionValue <$> Description.options p.

(** [conv], as [toBitDepth], rescales the samples of a 16-bit buffer the
    way the wavefile package does. *)
Definition rescales16 (conv : string -> PcmBuffer -> Outcome PcmBuffer) : Prop :=
  forall w, bitDepth w = "16" ->
    conv "32f" w = Ok (mkPcm (sampleRate w) "32f" (map (map int16ToFloat) (channels w))).

(** ** Example inputs for the concrete codec *)

(** Three channels of one sample each, through the concrete codec. *)
Definition threeChannelBytes : Bytes :=
  [Byte.x03; Byte.x00; Byte.xc0; Byte.x00; Byte.xe0; Byte.x00; Byte.xf0].

(** One channel of two samples, 32767 and -8192: 1.0 and -0.25 once
    converted. *)
Definition monoBytes : Bytes :=
  [Byte.x01; Byte.xff; Byte.x7f; Byte.x00; Byte.xe0].

(** An item with MPEG audio (two bytes). *)
Definition mpegItem : Item := Demo.withAudio "a" "audio/mpeg" "ab".

(** An item with the same two bytes declared as WAV. *)
Definition wavItem : Item := Demo.withAudio "w" "audio/wav" "ab".

(** An item with MPEG audio of no bytes: the concrete engine fails on it. *)
Definition silentItem : Item := Demo.withAudio "s" "audio/mpeg" "".

(** The concrete environment with an engine that exits with code 0 without
    emitting a byte. *)
Definition silentEngineEnv : Env :=
  mkEnv Demo.parameters true [] (fun _ => TypeError_undefined) Demo.binaryBuffer None
    (fun _ _ => None) (fun _ _ _ => Ok (JTranscription "")) Demo.decode
    (fun _ _ =>
       mkRun (Some "ffmpeg -i pipe:0 -acodec pcm_s16le -ar 16000 -ac 1 -f wav pipe:1") []
         (FluentFfmpeg.settle (FluentFfmpeg.Exited 0) "" ""))
    Demo.parseWav Demo.convertBitDepth Demo.resample (fun _ => "0").

(** The concrete environment with every parameter empty: no item is to be
    transcribed. *)
Definition idleEnv : Env :=
  mkEnv (fun _ _ => "") true [] (fun _ => TypeError_undefined) Demo.binaryBuffer None
    (fun _ _ => None) (fun _ _ _ => Ok (JTranscription "")) Demo.decode Demo.engine
    Demo.parseWav Demo.convertBitDepth Demo.resample (fun _ => "0").

(** * Properties *)

(** Unfolding of the monad's operations, for goals about a single run. *)
Ltac unfold_M :=
  unfold logInfo, logError, readParameter, loadPipeline, callTranscriber,
    mbind, M_bind, mret, M_ret, throw, liftOutcome, emit, getItems, setItems, itemAt,
    pushReturnData, tryCatch in *.

(** ** The downmix/scale step *)

Section Downmix.
Implicit Types (left right : list sample) (i j n : nat).

Lemma mixLoop_length n i (c0 c1 : list sample) : length (mixLoop n i c0 c1) = length c0.
Proof.
  revert i c0. induction n as [|n IH]; intros i c0; simpl; [done|].
  by rewrite IH, length_insert.
Qed.

(** The loop rewrites the indices [i .. i+n-1] and leaves the others. *)
Lemma mixLoop_lookup n i (c0 c1 : list sample) j :
  mixLoop n i c0 c1 !! j =
    if decide (i <= j < i + n)
    then (fun x => mix x (sampleAt c1 j)) <$> c0 !! j
    else c0 !! j.
Proof.
  revert i c0. induction n as [|n IH]; intros i c0; simpl.
  { case_decide; [lia|done]. }
  rewrite IH. destruct (decide (i = j)) as [->|Hne].
  - rewrite (decide_False (P := S j <= j < _)) by lia.
    rewrite (decide_True (P := j <= j < _)) by lia.
    unfold sampleAt. destruct (c0 !! j) as [x|] eqn:Hj; simpl.
    + apply list_lookup_insert_eq. by eapply lookup_lt_Some.
    + apply lookup_ge_None. rewrite length_insert. by apply lookup_ge_None.
  - rewrite list_lookup_insert_ne by done.
    repeat case_decide; try lia; done.
Qed.

(** What the step does to a two-channel buffer: the sample count is kept,
    the first two samples are mixed and the others are the left channel's. *)
Lemma downmix_stereo left right :
  exists out,
    downmix (Channels [left; right]) = Ok (Some out)
    /\ length out = length left
    /\ forall i l, left !! i = Some l ->
         out !! i = Some (if decide (i < 2) then mix l (sampleAt right i) else l).
Proof.
  eexists. split; [reflexivity|]. split; [apply mixLoop_length|].
  intros i l Hl. rewrite mixLoop_lookup, Hl. simpl.
  repeat case_decide; try lia; done.
Qed.

End Downmix.

Lemma normalizedAudio_unfold (env : Env) (buffer : Bytes) (w : World) :
  normalizedAudio env buffer w =
    match normalize env buffer w with
    | (Ok wav, w') => (downmix (getSamples wav), w')
    | (Throw e, w') => (Throw e, w')
    end.
Proof.
  unfold normalizedAudio, mbind, M_bind. by destruct (normalize env buffer w) as [[wav|e] w'].
Qed.

(** C1, evaluated where it fails.  A stereo buffer of three samples per
    channel, left equal to right: the step keeps the sample count and mixes
    samples 0 and 1, but sample 2 comes out as the left sample 0.5, not as
    sqrt(2) * (0.5 + 0.5) / 2 = sqrt(2) * 0.5.  The loop is bounded by
    [audioData.length], the channel count, instead of the sample count. *)
Theorem downmix_stereo_leaves_third_sample :
  downmix (getSamples (mkPcm 16000 "32f" [[0.5; 0.5; 0.5]%float; [0.5; 0.5; 0.5]%float]))
    = Ok (Some [mix 0.5 0.5; mix 0.5 0.5; 0.5%float])
  /\ mix 0.5 0.5 = (SCALING_FACTOR * 0.5)%float
  /\ 0.5%float <> mix 0.5 0.5.
Proof.
  split; [reflexivity|]. split; [reflexivity|].
  intros H. apply (f_equal (fun x => (x <? 0.625)%float)) in H.
  vm_compute in H. discriminate.
Qed.

(** C8.  For a mono PcmBuffer (channel count 1) the downmix/scale step is
    the identity: the sample sequence handed to the model is the buffer's
    only channel, unchanged. *)
Theorem downmix_mono_identity (w : PcmBuffer) :
  numChannels w = 1 ->
  exists s, channels w = [s] /\ downmix (getSamples w) = Ok (Some s).
Proof.
  unfold numChannels, getSamples. intros H.
  destruct (channels w) as [|s [|]]; simplify_eq/=. by exists s.
Qed.

Lemma downmix_mono_identity_witness :
  numChannels (mkPcm 16000 "32f" [[0.5; -0.25]%float]) = 1
  /\ exists s, channels (mkPcm 16000 "32f" [[0.5; -0.25]%float]) = [s]
       /\ downmix (getSamples (mkPcm 16000 "32f" [[0.5; -0.25]%float])) = Ok (Some s).
Proof.
  split; [reflexivity|].
  apply (downmix_mono_identity (mkPcm 16000 "32f" [[0.5; -0.25]%float])). reflexivity.
Defined.

(** C3 as stated fails: a buffer with three channels is not rejected.  The
    step throws nothing and yields a sample sequence. *)
Lemma three_channels_not_rejected :
  numChannels (mkPcm 16000 "32f" [[0.5]%float; [0.25]%float; [0.125]%float]) = 3
  /\ downmix (getSamples (mkPcm 16000 "32f" [[0.5]%float; [0.25]%float; [0.125]%float]))
       = Ok (Some [mix 0.5 0.25])
  /\ ~ exists e,
         downmix (getSamples (mkPcm 16000 "32f" [[0.5]%float; [0.25]%float; [0.125]%float]))
           = Throw e.
Proof.
  split; [reflexivity|]. split; [reflexivity|]. intros [e He]. discriminate He.
Qed.

(** C3, amended.  When the normalizer yields a buffer with more than two
    channels, the pipeline does not fail at the downmix: it hands on a
    sample sequence as long as channel 0, which is the same for every
    buffer with the same channels 0 and 1 and the same channel count (the
    samples of channels 2 and up are never read). *)
Theorem downmix_ignores_extra_channels (env : Env) (buffer : Bytes)
    (w w' : World) (wav : PcmBuffer) :
  normalize env buffer w = (Ok wav, w') ->
  2 < numChannels wav ->
  exists c0 c1 rest out,
    channels wav = c0 :: c1 :: rest
    /\ normalizedAudio env buffer w = (Ok (Some out), w')
    /\ length out = length c0
    /\ forall rest', length rest' = length rest ->
         downmix (Channels (c0 :: c1 :: rest')) = Ok (Some out).
Proof.
  intros Hn Hc. rewrite normalizedAudio_unfold, Hn.
  unfold numChannels, getSamples in *.
  destruct (channels wav) as [|c0 [|c1 rest]]; simpl in Hc; try lia.
  exists c0, c1, rest. eexists. split; [done|]. split; [reflexivity|].
  split; [apply mixLoop_length|].
  intros rest' Hlen. simpl. by rewrite Hlen.
Qed.

(** C6 as stated fails: both channels hold the in-range sample 1.0 and the
    downmixed sample is sqrt(2) > 1.0; the step applies no clamp. *)
Lemma downmix_exceeds_unit_range :
  Forall (fun x => inUnitRange x = true) [1%float]
  /\ downmix (getSamples (mkPcm 16000 "32f" [[1%float]; [1%float]]))
       = Ok (Some [SCALING_FACTOR])
  /\ inUnitRange SCALING_FACTOR = false.
Proof.
  split; [by repeat constructor|]. split; reflexivity.
Qed.

(** C6, amended.  For a mono buffer the resulting sequence is the very
    sequence of samples that bit-depth conversion and resampling produced,
    the buffer's only channel, sample by sample and unchanged; so every
    sample of it lies within [-1.0, 1.0] whenever those do. *)
Theorem mono_samples_stay_in_unit_range (env : Env) (buffer : Bytes)
    (w w' : World) (wav : PcmBuffer) :
  normalize env buffer w = (Ok wav, w') ->
  numChannels wav = 1 ->
  Forall (Forall (fun x => inUnitRange x = true)) (channels wav) ->
  exists out,
    channels wav = [out]
    /\ normalizedAudio env buffer w = (Ok (Some out), w')
    /\ Forall (fun x => inUnitRange x = true) out.
Proof.
  intros Hn Hc Hr. rewrite normalizedAudio_unfold, Hn.
  unfold numChannels, getSamples in *.
  destruct (channels wav) as [|s [|]]; simplify_eq/=.
  exists s. split; [done|]. split; [done|]. by inversion Hr.
Qed.

(** ** The Format Prober and the Transcoder Adapter ([NodeA]) *)

Lemma includesb_unfold (s m : string) :
  includesb s m =
    String.prefix s m || match m with EmptyString => false | String _ m' => includesb s m' end.
Proof. by destruct m. Qed.

Lemma prefix_append (s post : string) : String.prefix s (s +:+ post) = true.
Proof.
  induction s as [|a s IH].
  - by destruct post.
  - change (String.prefix (String a s) (String a (s +:+ post)) = true). simpl.
    destruct (Ascii.ascii_dec a a); [done|congruence].
Qed.

Lemma includes_includesb (s m : string) : includes s m -> includesb s m = true.
Proof.
  intros (pre & post & ->). induction pre as [|a pre IH].
  - change (includesb s (s +:+ post) = true).
    by rewrite includesb_unfold, prefix_append.
  - change (includesb s (String a (pre +:+ s +:+ post)) = true).
    rewrite includesb_unfold, IH. apply orb_true_r.
Qed.

Section Transcoding.
Context (env : Env).
Implicit Types (itemIndex : nat) (buffer : Bytes) (w : World).

Lemma needsTranscode_spec (mime : string) (ext : option string) :
  NodeA.needsTranscode mime ext = true
  <-> mime = "audio/mpeg" \/ mime = "audio/mp3" \/ ext = Some "mp3".
Proof.
  unfold NodeA.needsTranscode.
  rewrite !orb_true_iff, !bool_decide_eq_true. tauto.
Qed.

(** What one call of the adapter does, by the way the engine settles. *)
Lemma transcode_run itemIndex buffer w :
  exists evs,
    Forall (fun ev => match ev with EvLogInfo _ | EvLogError _ => True | _ => False end) evs
    /\ NodeA.transcode env itemIndex buffer w =
       (match finish (ffmpeg env NodeA.transcodeRequest buffer) with
        | FfmpegError message _ _ => Throw (ConversionFailed message itemIndex)
        | FfmpegEnd _ _ =>
            Ok (concat (dataChunks (ffmpeg env NodeA.transcodeRequest buffer)))
        end,
        mkWorld (items w) (returnData w)
                (events w ++ EvFfmpeg NodeA.transcodeRequest buffer :: evs))
    /\ match finish (ffmpeg env NodeA.transcodeRequest buffer) with
       | FfmpegError _ stdout stderr =>
           EvLogError ("Std out: " +:+ stdout) ∈ evs
           /\ EvLogError ("Std err: " +:+ stderr) ∈ evs
       | FfmpegEnd _ _ => True
       end.
Proof.
  unfold NodeA.transcode. unfold_M. simpl.
  destruct (commandLine _) as [c|], (finish _) as [out err|message out err]; simpl;
    rewrite <- ?(assoc_L (++)); simpl;
    eexists; (split; [|split; [reflexivity|]]);
    repeat first [done | constructor | split | set_solver].
Qed.

(** C7.  The Transcoder Adapter is invoked exactly when the MIME type is
    audio/mpeg or audio/mp3 or the extension is mp3, and then on the blob's
    own bytes; every other blob, whatever its MIME type or extension, is
    handed unchanged to WAV parsing and is not rejected. *)
Theorem transcoder_invoked_iff_mpeg itemIndex (binaryItem : IBinaryData) buffer w :
  exists r w' evs,
    NodeA.audioBufferWav env itemIndex binaryItem buffer w = (r, w')
    /\ events w' = events w ++ evs
    /\ ((exists req input, EvFfmpeg req input ∈ evs)
        <-> (mimeType binaryItem = "audio/mpeg" \/ mimeType binaryItem = "audio/mp3"
             \/ fileExtension binaryItem = Some "mp3"))
    /\ (forall req input, EvFfmpeg req input ∈ evs ->
          req = NodeA.transcodeRequest /\ input = buffer)
    /\ (~ (mimeType binaryItem = "audio/mpeg" \/ mimeType binaryItem = "audio/mp3"
           \/ fileExtension binaryItem = Some "mp3") -> r = Ok buffer).
Proof.
  unfold NodeA.audioBufferWav.
  destruct (NodeA.needsTranscode _ _) eqn:Hprobe.
  - apply needsTranscode_spec in Hprobe.
    destruct (transcode_run itemIndex buffer w) as (evs & Hlogs & -> & _).
    eexists _, _, _. split; [reflexivity|]. split; [reflexivity|].
    split; [|split]; [| |tauto].
    + split; [done|]. intros _. eexists _, _. by left.
    + intros req input [Heq|Hin]%elem_of_cons; [by simplify_eq|].
      rewrite Forall_forall in Hlogs. by apply Hlogs in Hin.
  - assert (~ (mimeType binaryItem = "audio/mpeg" \/ mimeType binaryItem = "audio/mp3"
               \/ fileExtension binaryItem = Some "mp3")) as Hno.
    { rewrite <- needsTranscode_spec. congruence. }
    unfold_M. simpl. eexists _, _, _. split; [reflexivity|]. split; [reflexivity|].
    split; [|split]; [| |done].
    + split; [|done]. intros (req & input & Hin).
      apply elem_of_cons in Hin as [Heq|Hin]; [discriminate|by apply elem_of_nil in Hin].
    + intros req input Hin.
      apply elem_of_cons in Hin as [Heq|Hin]; [discriminate|by apply elem_of_nil in Hin].
Qed.

(** What [extractError] keeps of the lines of the captured standard error:
    those after the last line that starts with a space or a bracket. *)
Lemma foldl_keepLast (lines : list string) :
  exists dropped kept,
    lines = dropped ++ kept
    /\ foldl FluentFfmpeg.keepLast [] lines = kept
    /\ Forall (fun line => FluentFfmpeg.startsIndented line = false) kept
    /\ (dropped = []
        \/ exists line, last dropped = Some line
                        /\ FluentFfmpeg.startsIndented line = true).
Proof.
  induction lines as [|line lines IH] using rev_ind.
  - exists [], []. repeat split; [constructor|by left].
  - destruct IH as (dropped & kept & -> & Hfold & Hkept & Hdropped).
    rewrite foldl_app. simpl. rewrite Hfold. unfold FluentFfmpeg.keepLast.
    destruct (FluentFfmpeg.startsIndented line) eqn:Hline.
    + exists ((dropped ++ kept) ++ [line]), []. rewrite app_nil_r.
      split; [done|]. split; [done|]. split; [constructor|].
      right. exists line. by rewrite last_snoc.
    + exists dropped, (kept ++ [line]). rewrite (assoc_L (++)).
      split; [done|]. split; [done|]. split; [|done].
      apply Forall_app. split; [done|]. by repeat constructor.
Qed.

(** C5, amended.  When the engine settles with an error, the adapter fails
    with a ConversionFailed error whose message is "Conversion failed: "
    followed by the message of the engine's error; the captured standard
    output and standard error are written in full to the error log.  When
    the process exited with an error status, the message of fluent-ffmpeg's
    error, and so the adapter's, ends with the last lines of the captured
    standard error only: those after its last line that starts with a
    space or a bracket.  When the engine ends without an error, the adapter
    succeeds with the bytes it emitted, few or none. *)
Theorem transcode_failure_message itemIndex buffer w :
  exists e_or_bytes w' evs,
    NodeA.transcode env itemIndex buffer w = (e_or_bytes, w')
    /\ events w' = events w ++ evs
    /\ match finish (ffmpeg env NodeA.transcodeRequest buffer) with
       | FfmpegError message stdout stderr =>
           e_or_bytes = Throw (NodeOperationError ("Conversion failed: " +:+ message) itemIndex)
           /\ EvLogError ("Std out: " +:+ stdout) ∈ evs
           /\ EvLogError ("Std err: " +:+ stderr) ∈ evs
       | FfmpegEnd _ _ =>
           e_or_bytes = Ok (concat (dataChunks (ffmpeg env NodeA.transcodeRequest buffer)))
       end
    /\ forall code stdout stderr,
         finish (ffmpeg env NodeA.transcodeRequest buffer)
         = FluentFfmpeg.settle (FluentFfmpeg.Exited (S code)) stdout stderr ->
         exists dropped kept,
           FluentFfmpeg.splitLines stderr = dropped ++ kept
           /\ Forall (fun line => FluentFfmpeg.startsIndented line = false) kept
           /\ (dropped = []
               \/ exists line, last dropped = Some line
                               /\ FluentFfmpeg.startsIndented line = true)
           /\ e_or_bytes
              = Throw (NodeOperationError
                         ("Conversion failed: " +:+ "ffmpeg exited with code "
                          +:+ pretty (S code) +:+ ": "
                          +:+ String.concat FluentFfmpeg.newline kept)
                         itemIndex)
           /\ EvLogError ("Std err: " +:+ stderr) ∈ evs.
Proof.
  destruct (transcode_run itemIndex buffer w) as (evs & _ & -> & Hlog).
  eexists _, _, _. split; [reflexivity|]. split; [reflexivity|]. split.
  - destruct (finish _) as [out err|message out err]; [done|].
    destruct Hlog as [Hout Herr]. split; [done|]. split; set_solver.
  - intros code stdout stderr Hfin. rewrite Hfin in *.
    destruct (foldl_keepLast (FluentFfmpeg.splitLines stderr))
      as (dropped & kept & Hlines & Hfold & Hkept & Hdropped).
    exists dropped, kept. split; [done|]. split; [done|]. split; [done|].
    simpl in *. unfold FluentFfmpeg.extractError. rewrite Hfold.
    split; [done|]. destruct Hlog as [_ Herr]. rewrite elem_of_cons. by right.
Qed.

(** C10.  A successful conversion yields exactly the bytes the engine
    emitted for a request of WAV output, codec pcm_s16le (16-bit
    little-endian linear PCM), 16000 Hz and 1 channel; with an engine that
    encodes as requested, the output is so encoded. *)
Theorem transcode_output_encoding (encoded : FfmpegRequest -> Bytes -> Prop)
    itemIndex buffer w (out : Bytes) (w' : World) :
  honours (ffmpeg env) encoded ->
  NodeA.transcode env itemIndex buffer w = (Ok out, w') ->
  encoded (mkRequest "wav" "pcm_s16le" 16000 1) out
  /\ out = concat (dataChunks (ffmpeg env (mkRequest "wav" "pcm_s16le" 16000 1) buffer))
  /\ EvFfmpeg (mkRequest "wav" "pcm_s16le" 16000 1) buffer ∈ events w'.
Proof.
  intros Hhon Hrun.
  destruct (transcode_run itemIndex buffer w) as (evs & _ & Heq & _).
  rewrite Hrun in Heq.
  destruct (finish (ffmpeg env NodeA.transcodeRequest buffer)) as [o e|] eqn:Hfin;
    simplify_eq.
  split; [by eapply Hhon|]. split; [done|]. simpl. set_solver.
Qed.

(** C9.  On a buffer that parses as PCM, the normalizer calls the
    bit-depth conversion to 32-bit float first and the sample-rate
    conversion to 16000 Hz second, and the latter works on the buffer the
    former produced.  With the conversion of the wavefile package, what
    the sample-rate conversion receives for a 16-bit buffer is that buffer
    with every sample divided by its maximum magnitude. *)
Theorem bit_depth_before_sample_rate buffer w (wav : PcmBuffer) :
  WaveFile env buffer = Ok wav ->
  exists r w' evs,
    normalize env buffer w = (r, w')
    /\ events w' = events w ++ EvWaveFile buffer :: EvToBitDepth "32f" :: evs
    /\ match toBitDepth env "32f" wav with
       | Ok wav32 => evs = [EvToSampleRate 16000] /\ r = toSampleRate env 16000 wav32
       | Throw e => evs = [] /\ r = Throw e
       end
    /\ (rescales16 (toBitDepth env) -> bitDepth wav = "16" ->
        evs = [EvToSampleRate 16000]
        /\ r = toSampleRate env 16000
                 (mkPcm (sampleRate wav) "32f" (map (map int16ToFloat) (channels wav)))).
Proof.
  intros Hparse. unfold normalize. unfold_M. simpl. rewrite Hparse. simpl.
  destruct (toBitDepth env "32f" wav) as [wav32|e] eqn:Hconv; simpl;
    rewrite <- ?(assoc_L (++)); simpl; eexists _, _, _;
    (split; [reflexivity|]); (split; [reflexivity|]); (split; [done|]);
    intros Hlib H16; rewrite (Hlib wav H16) in Hconv; by simplify_eq.
Qed.

End Transcoding.

(** C5 as stated fails, twice.  On empty input the process exits with
    code 1 after writing its banner and one error line to standard error;
    the message of the error the adapter raises has that last line, as
    fluent-ffmpeg appends it, and not the captured standard error, whose
    earlier lines it lacks.  And when the process exits with code 0 without
    having emitted a byte, the adapter does not fail: it succeeds with the
    empty buffer. *)
Lemma conversion_error_omits_stderr :
  finish (ffmpeg (Demo.env true) NodeA.transcodeRequest [])
    = FluentFfmpeg.settle (FluentFfmpeg.Exited 1) "" Demo.failureStderr
  /\ fst (NodeA.transcode (Demo.env true) 0 [] (initialWorld []))
     = Throw (NodeOperationError
                ("Conversion failed: ffmpeg exited with code 1: "
                 +:+ "pipe:0: Invalid data found when processing input") 0)
  /\ ~ includes Demo.failureStderr
         ("Conversion failed: ffmpeg exited with code 1: "
          +:+ "pipe:0: Invalid data found when processing input")
  /\ ~ includes "ffmpeg version 4.4"
         ("Conversion failed: ffmpeg exited with code 1: "
          +:+ "pipe:0: Invalid data found when processing input")
  /\ finish (ffmpeg silentEngineEnv NodeA.transcodeRequest [Byte.x00])
     = FluentFfmpeg.settle (FluentFfmpeg.Exited 0) "" ""
  /\ dataChunks (ffmpeg silentEngineEnv NodeA.transcodeRequest [Byte.x00]) = []
  /\ fst (NodeA.transcode silentEngineEnv 0 [Byte.x00] (initialWorld [])) = Ok [].
Proof.
  split; [reflexivity|]. split; [reflexivity|].
  split; [intros H%includes_includesb; vm_compute in H; discriminate|].
  split; [intros H%includes_includesb; vm_compute in H; discriminate|].
  split; [reflexivity|]. split; reflexivity.
Qed.

Lemma transcode_output_encoding_witness :
  honours (ffmpeg (Demo.env true)) (fun _ out => exists payload, out = Byte.x01 :: payload)
  /\ (exists payload,
        [Byte.x01; Byte.x00; Byte.x40] = Byte.x01 :: payload)
  /\ [Byte.x01; Byte.x00; Byte.x40]
     = concat (dataChunks (ffmpeg (Demo.env true) (mkRequest "wav" "pcm_s16le" 16000 1)
                                  [Byte.x00; Byte.x40])).
Proof.
  assert (honours (ffmpeg (Demo.env true))
            (fun _ out => exists payload, out = Byte.x01 :: payload)) as Hhon.
  { intros req [|b input] out err Hfin; [discriminate|]. by eexists. }
  split; [exact Hhon|].
  destruct (transcode_output_encoding (Demo.env true) _ 0 [Byte.x00; Byte.x40]
              (initialWorld []) [Byte.x01; Byte.x00; Byte.x40] _ Hhon eq_refl)
    as (Henc & Hout & _).
  split; [exact Henc|exact Hout].
Defined.

Lemma bit_depth_before_sample_rate_witness :
  WaveFile (Demo.env true) monoBytes = Ok (mkPcm 16000 "16" [[32767%float; (-8192)%float]])
  /\ rescales16 (toBitDepth (Demo.env true))
  /\ map (map int16ToFloat) [[32767%float; (-8192)%float]] = [[1%float; (-0.25)%float]]
  /\ exists r w' evs,
       normalize (Demo.env true) monoBytes (initialWorld []) = (r, w')
       /\ events w' = events (initialWorld [])
                        ++ EvWaveFile monoBytes :: EvToBitDepth "32f" :: evs
       /\ match toBitDepth (Demo.env true) "32f"
                  (mkPcm 16000 "16" [[32767%float; (-8192)%float]]) with
          | Ok wav32 =>
              evs = [EvToSampleRate 16000]
              /\ r = toSampleRate (Demo.env true) 16000 wav32
          | Throw e => evs = [] /\ r = Throw e
          end
       /\ evs = [EvToSampleRate 16000]
       /\ r = toSampleRate (Demo.env true) 16000
                (mkPcm 16000 "32f" [[1%float; (-0.25)%float]]).
Proof.
  assert (rescales16 (toBitDepth (Demo.env true))) as Hlib.
  { intros wav H16. simpl. unfold Demo.convertBitDepth.
    rewrite decide_True by done. by rewrite decide_True by done. }
  split; [reflexivity|]. split; [exact Hlib|]. split; [reflexivity|].
  destruct (bit_depth_before_sample_rate (Demo.env true) monoBytes (initialWorld [])
              (mkPcm 16000 "16" [[32767%float; (-8192)%float]]) eq_refl)
    as (r & w' & evs & Hrun & Hev & Hflow & Hrescaled).
  exists r, w', evs. split; [exact Hrun|]. split; [exact Hev|]. split; [exact Hflow|].
  exact (Hrescaled Hlib eq_refl).
Defined.

Lemma downmix_ignores_extra_channels_witness :
  normalize (Demo.env true) threeChannelBytes (initialWorld [])
    = (Ok (mkPcm 16000 "32f" [[(-0.5)%float]; [(-0.25)%float]; [(-0.125)%float]]),
       snd (normalize (Demo.env true) threeChannelBytes (initialWorld [])))
  /\ 2 < numChannels (mkPcm 16000 "32f" [[(-0.5)%float]; [(-0.25)%float]; [(-0.125)%float]])
  /\ exists c0 c1 rest out,
       channels (mkPcm 16000 "32f" [[(-0.5)%float]; [(-0.25)%float]; [(-0.125)%float]])
         = c0 :: c1 :: rest
       /\ normalizedAudio (Demo.env true) threeChannelBytes (initialWorld [])
          = (Ok (Some out),
             snd (normalize (Demo.env true) threeChannelBytes (initialWorld [])))
       /\ length out = length c0
       /\ forall rest', length rest' = length rest ->
            downmix (Channels (c0 :: c1 :: rest')) = Ok (Some out).
Proof.
  split; [reflexivity|]. split; [unfold numChannels; simpl; lia|].
  apply (downmix_ignores_extra_channels (Demo.env true) threeChannelBytes
           (initialWorld []) _ (mkPcm 16000 "32f" [[(-0.5)%float]; [(-0.25)%float]; [(-0.125)%float]])).
  - reflexivity.
  - unfold numChannels; simpl; lia.
Defined.

Lemma mono_samples_stay_in_unit_range_witness :
  normalize (Demo.env true) monoBytes (initialWorld [])
    = (Ok (mkPcm 16000 "32f" [[1%float; (-0.25)%float]]),
       snd (normalize (Demo.env true) monoBytes (initialWorld [])))
  /\ numChannels (mkPcm 16000 "32f" [[1%float; (-0.25)%float]]) = 1
  /\ Forall (Forall (fun x => inUnitRange x = true))
       (channels (mkPcm 16000 "32f" [[1%float; (-0.25)%float]]))
  /\ exists out,
       channels (mkPcm 16000 "32f" [[1%float; (-0.25)%float]]) = [out]
       /\ normalizedAudio (Demo.env true) monoBytes (initialWorld [])
          = (Ok (Some out), snd (normalize (Demo.env true) monoBytes (initialWorld [])))
       /\ Forall (fun x => inUnitRange x = true) out.
Proof.
  split; [reflexivity|]. split; [reflexivity|]. split; [by repeat constructor|].
  apply (mono_samples_stay_in_unit_range (Demo.env true) monoBytes (initialWorld []) _
           (mkPcm 16000 "32f" [[1%float; (-0.25)%float]])).
  - reflexivity.
  - reflexivity.
  - by repeat constructor.
Defined.

(** ** The item loop *)

Section Steady.
Context (env : Env).

Lemma timesProcessed_app j (l1 l2 : list Event) :
  timesProcessed j (l1 ++ l2) = timesProcessed j l1 + timesProcessed j l2.
Proof. unfold timesProcessed. by rewrite filter_app, length_app. Qed.

Lemma timesProcessed_quiet j (evs : list Event) :
  Forall quietEvent evs -> timesProcessed j evs = 0.
Proof.
  unfold timesProcessed. induction 1 as [|ev evs Hq _ IH]; [done|].
  rewrite filter_cons_False; [done|].
  destruct ev; simpl in *; try done.
  rewrite bool_decide_eq_true. tauto.
Qed.

Lemma timesProcessed_read i j (evs : list Event) :
  timesProcessed j (EvGetNodeParameter "operation" i :: evs)
  = (if decide (i = j) then 1 else 0) + timesProcessed j evs.
Proof.
  unfold timesProcessed. case_decide as Hij.
  - rewrite filter_cons_True; [done|]. simpl. by rewrite bool_decide_eq_true.
  - rewrite filter_cons_False; [done|]. simpl. rewrite bool_decide_eq_true. tauto.
Qed.

Lemma same_binary_length (l l' : list Item) :
  binary <$> l' = binary <$> l -> length l' = length l.
Proof. intros H. apply (f_equal length) in H. by rewrite !length_fmap in H. Qed.

Lemma steady_ret {A} (a : A) : steady (mret a).
Proof. intros w. split; [done|]. exists []. by rewrite app_nil_r. Qed.

Lemma steady_throw {A} (e : Error) : steady (throw (A := A) e).
Proof. intros w. split; [done|]. exists []. by rewrite app_nil_r. Qed.

Lemma steady_liftOutcome {A} (o : Outcome A) : steady (liftOutcome o).
Proof. intros w. split; [done|]. exists []. by rewrite app_nil_r. Qed.

Lemma steady_getItems : steady getItems.
Proof. intros w. split; [done|]. exists []. by rewrite app_nil_r. Qed.

Lemma steady_itemAt (i : nat) : steady (itemAt i).
Proof. intros w. split; [done|]. exists []. by rewrite app_nil_r. Qed.

Lemma steady_pushReturnData (it : Item) : steady (pushReturnData it).
Proof. intros w. split; [done|]. exists []. by rewrite app_nil_r. Qed.

Lemma steady_emit (ev : Event) : quietEvent ev -> steady (emit ev).
Proof. intros Hq w. split; [done|]. exists [ev]. split; [done|]. by constructor. Qed.

Lemma steady_bind {A B} (m : M A) (f : A -> M B) :
  steady m -> (forall a, steady (f a)) -> steady (m ≫= f).
Proof.
  intros Hm Hf w. specialize (Hm w). unfold mbind, M_bind.
  destruct (m w) as [[a|e] w1]; simpl in *; [|done].
  destruct Hm as (Hlen & evs1 & Hev1 & Hq1).
  destruct (Hf a w1) as (Hlen2 & evs2 & Hev2 & Hq2).
  split; [congruence|]. exists (evs1 ++ evs2).
  split; [by rewrite Hev2, Hev1, (assoc_L (++))|by apply Forall_app].
Qed.

Lemma steady_tryCatch {A} (m : M A) (h : Error -> M A) :
  steady m -> (forall e, steady (h e)) -> steady (tryCatch m h).
Proof.
  intros Hm Hh w. specialize (Hm w). unfold tryCatch.
  destruct (m w) as [[a|e] w1]; simpl in *; [done|].
  destruct Hm as (Hlen & evs1 & Hev1 & Hq1).
  destruct (Hh e w1) as (Hlen2 & evs2 & Hev2 & Hq2).
  split; [congruence|]. exists (evs1 ++ evs2).
  split; [by rewrite Hev2, Hev1, (assoc_L (++))|by apply Forall_app].
Qed.

End Steady.

Create HintDb steady discriminated.
#[export] Hint Resolve steady_ret steady_throw steady_liftOutcome steady_getItems
  steady_itemAt steady_pushReturnData : steady.

(** Breaks a goal [steady m] down along the structure of [m]. *)
Ltac steady_step :=
  match goal with
  | |- steady (_ ≫= _) => apply steady_bind; [|intros ?]
  | |- steady (emit _) => apply steady_emit; simpl; done
  | |- steady (match ?x with _ => _ end) => destruct x
  | |- steady (let _ := _ in _) => cbv zeta
  | |- steady _ => solve [auto with steady]
  end.
Ltac steady_tac := repeat steady_step.

Section SteadyParts.
Context (env : Env).

Lemma steady_readParameter (name : string) (i : nat) :
  name <> "operation" -> steady (readParameter env name i).
Proof. intros Hname. unfold readParameter. steady_tac. Qed.

Lemma steady_logInfo (msg : string) : steady (logInfo msg).
Proof. unfold logInfo. steady_tac. Qed.

Lemma steady_logError (msg : string) : steady (logError msg).
Proof. unfold logError. steady_tac. Qed.

Lemma steady_loadPipeline (model : string) : steady (loadPipeline env model).
Proof. unfold loadPipeline. steady_tac. Qed.

Lemma steady_callTranscriber model (audioData : option (list sample)) options :
  steady (callTranscriber env model audioData options).
Proof. unfold callTranscriber. steady_tac. Qed.

Lemma steady_normalizedAudio (buffer : Bytes) : steady (normalizedAudio env buffer).
Proof. unfold normalizedAudio, normalize. steady_tac. Qed.

Lemma steady_setTranscription (i : nat) (result : JValue) :
  steady (NodeA.setTranscription i result).
Proof.
  intros w. unfold NodeA.setTranscription. unfold_M. simpl.
  split; [|exists []; by rewrite app_nil_r].
  rewrite (list_fmap_alter binary _ id) by (by apply Forall_true).
  by apply list_alter_id.
Qed.

End SteadyParts.

#[export] Hint Resolve steady_logInfo steady_logError steady_loadPipeline
  steady_callTranscriber steady_normalizedAudio steady_setTranscription : steady.
#[export] Hint Extern 1 (steady (readParameter _ _ _)) =>
  apply steady_readParameter; discriminate : steady.

Section Iterations.
Context (env : Env).

Lemma readsThenSteady_bind {A} (i : nat) (f : string -> M A) :
  (forall v, steady (f v)) ->
  readsThenSteady i (readParameter env "operation" i ≫= f).
Proof.
  intros Hf w. unfold readParameter. unfold_M. simpl.
  destruct (Hf (getNodeParameter env "operation" i)
               (mkWorld (items w) (returnData w)
                        (events w ++ [EvGetNodeParameter "operation" i])))
    as (Hlen & evs & Hev & Hq).
  split; [done|]. exists evs. split; [|done].
  rewrite Hev. simpl. by rewrite <- (assoc_L (++)).
Qed.

Lemma steady_transcode (i : nat) (buffer : Bytes) : steady (NodeA.transcode env i buffer).
Proof. unfold NodeA.transcode. steady_tac. Qed.

Lemma steady_audioBufferWav (i : nat) (b : IBinaryData) (buffer : Bytes) :
  steady (NodeA.audioBufferWav env i b buffer).
Proof.
  unfold NodeA.audioBufferWav. pose proof steady_transcode. steady_tac.
Qed.

Lemma NodeA_tryBlock_reads (i : nat) : readsThenSteady i (NodeA.tryBlock env i).
Proof.
  unfold NodeA.tryBlock. apply readsThenSteady_bind. intros operation.
  pose proof steady_audioBufferWav. steady_tac.
Qed.

Lemma NodeB_tryBlock_reads (i : nat) : readsThenSteady i (NodeB.tryBlock env i).
Proof.
  unfold NodeB.tryBlock. apply readsThenSteady_bind. intros operation. steady_tac.
Qed.

Lemma NodeB_catchBlock_steady (i : nat) (e : Error) : steady (NodeB.catchBlock env i e).
Proof. unfold NodeB.catchBlock. steady_tac. Qed.

(** The [catch] of [NodeA] makes quiet calls only, and either keeps
    [items] or appends one record; it can append only while the item index
    names an input of the node. *)
Lemma NodeA_catchBlock_spec (i : nat) (e : Error) (w : World) :
  (exists evs,
     events (NodeA.catchBlock env i e w).2 = events w ++ evs /\ Forall quietEvent evs)
  /\ (length (items (NodeA.catchBlock env i e w).2) = length (items w)
      \/ length (items (NodeA.catchBlock env i e w).2) = S (length (items w))
         /\ i < S (length (otherInputs env))).
Proof.
  unfold NodeA.catchBlock, NodeA.firstJsonOfInput. unfold_M.
  destruct (continueOnFail env); simpl.
  2:{ split; [exists []; by rewrite app_nil_r|by left]. }
  assert (forall k (rest : list Event),
            Forall quietEvent rest -> Forall quietEvent (EvGetInputData k :: rest)) as Hq
    by (by constructor).
  destruct i as [|k]; simpl.
  - destruct (items w) as [|first rest] eqn:Hitems; simpl.
    + split; [eexists; split; [reflexivity|by apply Hq]|by left].
    + split; [eexists; split; [reflexivity|by apply Hq]|].
      right. rewrite length_app. simpl. split; lia.
  - destruct (otherInputs env !! k) as [[|first rest]|] eqn:Hk; simpl;
      (split; [eexists; split; [reflexivity|by apply Hq]|]);
      [by left| |by left].
    right. rewrite length_app. simpl. apply lookup_lt_Some in Hk. split; lia.
Qed.

Lemma NodeA_iteration_spec :
  IterationSpec (NodeA.iteration env) (S (length (otherInputs env))).
Proof.
  intros i w. unfold NodeA.iteration, tryCatch.
  destruct (NodeA_tryBlock_reads i w) as (Hlen%same_binary_length & evs & Hev & Hq).
  destruct (NodeA.tryBlock env i w) as [[a|e] w1]; simpl in *.
  { split; [by exists evs|by left]. }
  destruct (NodeA_catchBlock_spec i e w1) as ((evs2 & Hev2 & Hq2) & Hgrow).
  split.
  - exists (evs ++ evs2). split; [|by apply Forall_app].
    rewrite Hev2, Hev. by rewrite <- (assoc_L (++)).
  - rewrite <- Hlen. exact Hgrow.
Qed.

Lemma NodeB_iteration_spec : IterationSpec (NodeB.iteration env) 0.
Proof.
  intros i w. unfold NodeB.iteration, tryCatch.
  destruct (NodeB_tryBlock_reads i w) as (Hlen%same_binary_length & evs & Hev & Hq).
  destruct (NodeB.tryBlock env i w) as [[a|e] w1]; simpl in *.
  { split; [by exists evs|by left]. }
  destruct (NodeB_catchBlock_steady i e w1)
    as (Hlen2%same_binary_length & evs2 & Hev2 & Hq2).
  split.
  - exists (evs ++ evs2). split; [|by apply Forall_app].
    rewrite Hev2, Hev. by rewrite <- (assoc_L (++)).
  - left. congruence.
Qed.

End Iterations.

Section Loop.
Context (body : nat -> M unit) (bound : nat).

(** More fuel does not change the result of a loop that ended. *)
Lemma forLoop_fuel_mono (fuel fuel' i : nat) (w : World) (r : Outcome unit * World) :
  forLoop body fuel i w = Some r -> fuel <= fuel' -> forLoop body fuel' i w = Some r.
Proof.
  revert fuel' i w. induction fuel as [|fuel IH]; intros fuel' i w Hrun Hle; [done|].
  destruct fuel' as [|fuel']; [lia|]. simpl in *.
  case_decide; [|done].
  destruct (body i w) as [[u|e] w1]; [|done]. apply IH; [done|lia].
Qed.

Hypothesis body_spec : IterationSpec body bound.

(** The loop ends; in its trace every index is processed at most once, no
    index below the start is, and after a normal end every index the array
    had at the start has been processed exactly once. *)
Lemma forLoop_spec (fuel i : nat) (w : World) :
  (length (items w) - i) + (bound - i) < fuel ->
  exists r w' evs,
    forLoop body fuel i w = Some (r, w')
    /\ events w' = events w ++ evs
    /\ (forall j, timesProcessed j evs <= 1)
    /\ (forall j, j < i -> timesProcessed j evs = 0)
    /\ (r = Ok tt -> forall j, i <= j < length (items w) -> timesProcessed j evs = 1).
Proof using body_spec.
  revert i w. induction fuel as [|fuel IH]; intros i w Hfuel; [lia|]. simpl.
  case_decide as Hi.
  2:{ exists (Ok tt), w, []. rewrite app_nil_r.
      repeat split; try done; intros; unfold timesProcessed; simpl; lia. }
  destruct (body_spec i w) as ((evs1 & Hev1 & Hq1) & Hlen).
  destruct (body i w) as [[[]|e] w1] eqn:Hbody; simpl in *.
  - destruct (IH (S i) w1) as (r & w' & evs2 & Hrun & Hev2 & Hmost & Hbelow & Hall).
    { destruct Hlen as [->|[-> ?]]; lia. }
    exists r, w', (EvGetNodeParameter "operation" i :: evs1 ++ evs2).
    split; [done|]. split.
    { rewrite Hev2, Hev1. by rewrite <- (assoc_L (++)). }
    assert (forall j, timesProcessed j (EvGetNodeParameter "operation" i :: evs1 ++ evs2)
                      = (if decide (i = j) then 1 else 0) + timesProcessed j evs2) as Hcount.
    { intros j. rewrite timesProcessed_read, timesProcessed_app.
      by rewrite (timesProcessed_quiet j evs1). }
    split; [|split].
    + intros j. rewrite Hcount. case_decide as Hij; [subst j|exact (Hmost j)].
      rewrite Hbelow by lia. lia.
    + intros j Hj. rewrite Hcount, decide_False by lia. apply Hbelow. lia.
    + intros Hr j Hj. rewrite Hcount. case_decide as Hij.
      * subst j. rewrite Hbelow by lia. lia.
      * simpl. apply Hall; [done|]. destruct Hlen as [Hl|[Hl ?]]; rewrite Hl; lia.
  - exists (Throw e), w1, (EvGetNodeParameter "operation" i :: evs1).
    split; [done|]. split; [done|].
    assert (forall j, timesProcessed j (EvGetNodeParameter "operation" i :: evs1)
                      = if decide (i = j) then 1 else 0) as Hcount.
    { intros j. rewrite timesProcessed_read, (timesProcessed_quiet j evs1) by done. lia. }
    split; [|split].
    + intros j. rewrite Hcount. case_decide; lia.
    + intros j Hj. rewrite Hcount. rewrite decide_False by lia. done.
    + discriminate.
Qed.

End Loop.

Section Execute.
Context (env : Env).

Lemma NodeA_execute_fuel_mono (fuel fuel' : nat) (w : World)
    (r : Outcome (list (list Item)) * World) :
  NodeA.execute env fuel w = Some r -> fuel <= fuel' -> NodeA.execute env fuel' w = Some r.
Proof.
  unfold NodeA.execute. intros Hrun Hle.
  destruct (initTransformers env); [done|].
  destruct (forLoop (NodeA.iteration env) fuel 0 w) as [x|] eqn:Hloop; [|done].
  by rewrite (forLoop_fuel_mono _ _ _ _ _ _ Hloop Hle).
Qed.

Lemma NodeB_execute_fuel_mono (fuel fuel' : nat) (w : World)
    (r : Outcome (list (list Item)) * World) :
  NodeB.execute env fuel w = Some r -> fuel <= fuel' -> NodeB.execute env fuel' w = Some r.
Proof.
  unfold NodeB.execute. intros Hrun Hle.
  destruct (forLoop (NodeB.iteration env) fuel 0 w) as [x|] eqn:Hloop; [|done].
  by rewrite (forLoop_fuel_mono _ _ _ _ _ _ Hloop Hle).
Qed.

(** In [NodeB] an item without binary data fails with MissingInput and,
    when the run is to continue, leaves one record in [returnData]: the
    item's own json, the error and its index as [pairedItem].  [items] is
    not touched. *)
Lemma NodeB_missing_input_record (i : nat) (it : Item) (w : World) :
  continueOnFail env = true ->
  getNodeParameter env "operation" i = "transcribe" ->
  getNodeParameter env "audioInputType" i = "binaryFile" ->
  items w !! i = Some it ->
  binary it = None ->
  exists w',
    NodeB.tryBlock env i w = (Throw (MissingInput i), w')
    /\ NodeB.iteration env i w
       = (Ok tt, mkWorld (items w)
                   (returnData w ++ [mkItem (json it) None (Some (MissingInput i)) (Some i)])
                   (events w'))
    /\ items w' = items w /\ returnData w' = returnData w.
Proof.
  intros Hcont Hop Htype Hit Hbin.
  unfold NodeB.iteration, NodeB.catchBlock, NodeB.tryBlock, readParameter. unfold_M. simpl.
  rewrite Hop, Htype, Hit, Hbin, Hcont. simpl. rewrite Hit.
  eexists. split; [reflexivity|]. split; [reflexivity|]. done.
Qed.

End Execute.

(** C2 as stated fails: when the run is to abort on the first failure and
    the first of two items has no binary data, [execute] throws and the
    second item is never processed. *)
Lemma abort_leaves_later_items_unprocessed :
  NodeB.execute (Demo.env false) 3 (initialWorld [Demo.bare "a"; Demo.bare "b"])
    = Some (Throw (MissingInput 0),
            mkWorld [Demo.bare "a"; Demo.bare "b"] []
              [EvGetNodeParameter "operation" 0; EvGetNodeParameter "audioInputType" 0;
               EvGetNodeParameter "binaryPropertyName" 0; EvGetNodeParameter "model" 0])
  /\ timesProcessed 1
       [EvGetNodeParameter "operation" 0; EvGetNodeParameter "audioInputType" 0;
        EvGetNodeParameter "binaryPropertyName" 0; EvGetNodeParameter "model" 0] = 0.
Proof. split; reflexivity. Qed.

(** C4, evaluated where it fails.  [NodeA], one input, the run set to
    continue on failure, a single item without binary data.  The item fails
    with MissingInput and its record is appended to [items], the array the
    loop runs over; the loop then reaches that record, which has no binary
    data either, and the [catch] asks the host for input 1, which does not
    exist.  [execute] throws and no record is returned, whatever the fuel. *)
Theorem NodeA_continue_on_fail_throws :
  NodeA.execute (Demo.env true) 3 (initialWorld [Demo.bare "a"])
    = Some (Throw TypeError_undefined,
            mkWorld [Demo.bare "a";
                     mkItem (json (Demo.bare "a")) None (Some (MissingInput 0)) (Some 0)]
              []
              [EvGetNodeParameter "operation" 0; EvGetNodeParameter "audioInputType" 0;
               EvGetNodeParameter "binaryPropertyName" 0; EvGetNodeParameter "model" 0;
               EvGetInputData 0;
               EvGetNodeParameter "operation" 1; EvGetNodeParameter "audioInputType" 1;
               EvGetNodeParameter "binaryPropertyName" 1; EvGetNodeParameter "model" 1;
               EvGetInputData 1])
  /\ forall fuel out w',
       NodeA.execute (Demo.env true) fuel (initialWorld [Demo.bare "a"]) <> Some (Ok out, w').
Proof.
  split; [reflexivity|].
  intros fuel out w' Hrun.
  destruct (decide (fuel <= 3)) as [Hle|Hgt].
  - apply (NodeA_execute_fuel_mono _ fuel 3) in Hrun; [|done]. discriminate Hrun.
  - assert (NodeA.execute (Demo.env true) fuel (initialWorld [Demo.bare "a"])
            = NodeA.execute (Demo.env true) 3 (initialWorld [Demo.bare "a"])) as Heq.
    { erewrite (NodeA_execute_fuel_mono _ 3 fuel); [done|reflexivity|lia]. }
    rewrite Heq in Hrun. discriminate Hrun.
Qed.

(** ** [NodeA], continue-on-failure: a failing item ends the run *)

Section NodeAContinue.
Context (env : Env).

Lemma NodeA_tryBlock_missing (i : nat) (w : World) :
  getNodeParameter env "operation" i = "transcribe" ->
  getNodeParameter env "audioInputType" i = "binaryFile" ->
  (binary <$> items w) !! i = Some None ->
  exists w', NodeA.tryBlock env i w = (Throw (MissingInput i), w').
Proof.
  intros Hop Htype Hbare. rewrite list_lookup_fmap in Hbare.
  destruct (items w !! i) as [it|] eqn:Hit; [|done].
  assert (binary it = None) as Hbin by (by simplify_eq/=).
  unfold NodeA.tryBlock, readParameter. unfold_M. simpl.
  rewrite Hop, Htype, Hit. simpl. rewrite Hbin. by eexists.
Qed.

Lemma NodeA_catchBlock_push (i : nat) (e : Error) (w w1 : World) :
  continueOnFail env = true ->
  NodeA.catchBlock env i e w = (Ok tt, w1) ->
  exists j, items w1 = items w ++ [mkItem j None (Some e) (Some i)].
Proof.
  intros Hcont. unfold NodeA.catchBlock, NodeA.firstJsonOfInput. rewrite Hcont.
  unfold_M. simpl.
  destruct (match i with 0 => Some (items w) | S k => otherInputs env !! k end)
    as [[|first rest]|]; simpl; intros Heq; simplify_eq/=.
  by eexists.
Qed.

(** As long as an item without binary data lies at or after the loop
    index, the loop cannot end normally: processing such an item appends
    another one. *)
Lemma NodeA_loop_never_returns (fuel i : nat) (w w' : World) :
  continueOnFail env = true ->
  (forall k, getNodeParameter env "operation" k = "transcribe") ->
  (forall k, getNodeParameter env "audioInputType" k = "binaryFile") ->
  (exists k, i <= k /\ (binary <$> items w) !! k = Some None) ->
  forLoop (NodeA.iteration env) fuel i w <> Some (Ok tt, w').
Proof.
  intros Hcont Hop Htype. revert i w.
  induction fuel as [|fuel IH]; intros i w (k & Hik & Hbare); [done|].
  simpl. pose proof (lookup_lt_Some _ _ _ Hbare) as Hk. rewrite length_fmap in Hk.
  rewrite decide_True by lia.
  destruct (NodeA.iteration env i w) as [[[]|e] w1] eqn:Hiter; [|done].
  apply IH. unfold NodeA.iteration, tryCatch in Hiter.
  destruct (NodeA_tryBlock_reads env i w) as (Hbin & _).
  destruct (NodeA.tryBlock env i w) as [[[]|e] w0] eqn:Htry; simpl in Hbin.
  - simplify_eq. destruct (decide (k = i)) as [->|Hne].
    + destruct (NodeA_tryBlock_missing i w (Hop i) (Htype i) Hbare) as (w2 & Hthrow).
      congruence.
    + exists k. split; [lia|]. by rewrite Hbin.
  - destruct (NodeA_catchBlock_push i e w0 w1 Hcont Hiter) as (j & Hpush).
    exists (length (items w0)). split.
    + rewrite (same_binary_length _ _ Hbin). lia.
    + rewrite Hpush, fmap_app. simpl.
      apply list_lookup_middle. by rewrite length_fmap.
Qed.

End NodeAContinue.

(** ** Isolation of items in [NodeB] *)

Section Local.
Context (env : Env) (j : nat).

Lemma world_eta (w : World) :
  w = mkWorld (items w) (returnData w ++ []) (events w ++ []).
Proof. destruct w. simpl. by rewrite !app_nil_r. Qed.

Lemma local_pure {A} (o : Outcome A) : local j (liftOutcome o).
Proof.
  intros w1 w2 _. exists o, [], []. unfold liftOutcome.
  by rewrite <- !world_eta.
Qed.

Lemma local_ret {A} (a : A) : local j (mret a).
Proof. apply (local_pure (Ok a)). Qed.

Lemma local_throw {A} (e : Error) : local j (throw (A := A) e).
Proof. apply (local_pure (Throw e)). Qed.

Lemma local_itemAt : local j (itemAt j).
Proof.
  intros w1 w2 Hj. exists (Ok (items w1 !! j)), [], []. unfold itemAt.
  rewrite <- !world_eta. by rewrite Hj.
Qed.

Lemma local_emit (ev : Event) : local j (emit ev).
Proof.
  intros w1 w2 _. exists (Ok tt), [], [ev]. unfold emit. by rewrite !app_nil_r.
Qed.

Lemma local_pushReturnData (it : Item) : local j (pushReturnData it).
Proof.
  intros w1 w2 _. exists (Ok tt), [it], []. unfold pushReturnData. by rewrite !app_nil_r.
Qed.

Lemma local_bind {A B} (m : M A) (f : A -> M B) :
  local j m -> (forall a, local j (f a)) -> local j (m ≫= f).
Proof.
  intros Hm Hf w1 w2 Hj. unfold mbind, M_bind.
  destruct (Hm w1 w2 Hj) as (r & rd & evs & -> & ->).
  destruct r as [a|e]; [|by exists (Throw e), rd, evs].
  destruct (Hf a (mkWorld (items w1) (returnData w1 ++ rd) (events w1 ++ evs))
               (mkWorld (items w2) (returnData w2 ++ rd) (events w2 ++ evs)) Hj)
    as (r' & rd' & evs' & -> & ->).
  exists r', (rd ++ rd'), (evs ++ evs'). simpl. by rewrite !(assoc_L (++)).
Qed.

Lemma local_tryCatch {A} (m : M A) (h : Error -> M A) :
  local j m -> (forall e, local j (h e)) -> local j (tryCatch m h).
Proof.
  intros Hm Hh w1 w2 Hj. unfold tryCatch.
  destruct (Hm w1 w2 Hj) as (r & rd & evs & -> & ->).
  destruct r as [a|e]; [by exists (Ok a), rd, evs|].
  destruct (Hh e (mkWorld (items w1) (returnData w1 ++ rd) (events w1 ++ evs))
               (mkWorld (items w2) (returnData w2 ++ rd) (events w2 ++ evs)) Hj)
    as (r' & rd' & evs' & -> & ->).
  exists r', (rd ++ rd'), (evs ++ evs'). simpl. by rewrite !(assoc_L (++)).
Qed.

End Local.

Create HintDb local discriminated.
#[export] Hint Resolve local_pure local_ret local_throw local_itemAt local_emit
  local_pushReturnData : local.

Ltac local_step :=
  match goal with
  | |- local _ (_ ≫= _) => apply local_bind; [|intros ?]
  | |- local _ (tryCatch _ _) => apply local_tryCatch; [|intros ?]
  | |- local _ (match ?x with _ => _ end) => destruct x
  | |- local _ _ => solve [auto with local]
  end.
Ltac local_tac := repeat local_step.

Section Isolation.
Context (env : Env).

(** Processing item [j] in [NodeB] is local to that item. *)
Lemma NodeB_iteration_local (j : nat) : local j (NodeB.iteration env j).
Proof.
  unfold NodeB.iteration, NodeB.tryBlock, NodeB.catchBlock, readParameter, logInfo,
    loadPipeline, callTranscriber, normalizedAudio, normalize.
  local_tac.
Qed.

Lemma NodeB_iteration_continue (i : nat) (it : Item) (w : World) :
  continueOnFail env = true ->
  items w !! i = Some it ->
  exists evs,
    NodeB.iteration env i w
    = (Ok tt, mkWorld (items w) (returnData w ++ recordsFor env i it) (events w ++ evs)).
Proof.
  intros Hcont Hit.
  assert (items w !! i = items (mkWorld (replicate (S i) it) [] []) !! i) as Hagree.
  { cbn [items]. rewrite Hit. symmetry. apply lookup_replicate_2. lia. }
  destruct (NodeB_iteration_local i _ _ Hagree) as (r & rd & evs & Hw & Hrep).
  unfold recordsFor. rewrite Hrep. simpl. exists evs. rewrite Hw. f_equal.
  (* the iteration does not throw *)
  clear Hrep Hagree. unfold NodeB.iteration, tryCatch in Hw.
  destruct (NodeB.tryBlock env i w) as [[[]|e] w1] eqn:Htry; [by simplify_eq|].
  assert (items w1 = items w) as Hitems.
  { assert (local i (NodeB.tryBlock env i)) as Hloc.
    { unfold NodeB.tryBlock, readParameter, logInfo, loadPipeline, callTranscriber,
        normalizedAudio, normalize. local_tac. }
    destruct (Hloc w w eq_refl) as (r1 & rd1 & evs1 & Heq & _).
    rewrite Htry in Heq. by simplify_eq. }
  unfold NodeB.catchBlock in Hw. rewrite Hcont in Hw. unfold_M.
  rewrite Hitems, Hit in Hw. by simplify_eq.
Qed.

Lemma NodeB_loop_continue (fuel i : nat) (w : World) :
  continueOnFail env = true ->
  length (items w) - i < fuel ->
  exists w',
    forLoop (NodeB.iteration env) fuel i w = Some (Ok tt, w')
    /\ items w' = items w
    /\ returnData w'
       = returnData w ++ concat (imap (fun k => recordsFor env (i + k)) (drop i (items w))).
Proof.
  intros Hcont. revert i w. induction fuel as [|fuel IH]; intros i w Hfuel; [lia|].
  simpl. case_decide as Hi.
  - destruct (lookup_lt_is_Some_2 _ _ Hi) as [it Hit].
    destruct (NodeB_iteration_continue i it w Hcont Hit) as (evs & ->).
    destruct (IH (S i) (mkWorld (items w) (returnData w ++ recordsFor env i it) (events w ++ evs)))
      as (w' & -> & Hitems & Hrd); [simpl; lia|].
    exists w'. split; [done|]. split; [done|].
    rewrite Hrd. simpl. rewrite (drop_S _ _ _ Hit). simpl.
    rewrite Nat.add_0_r, <- (assoc_L (++)). do 3 f_equal.
    apply imap_ext. intros k x _. simpl. f_equal. lia.
  - exists w. split; [done|]. split; [done|].
    rewrite drop_ge by lia. simpl. by rewrite app_nil_r.
Qed.

End Isolation.

(** [NodeB], continue-on-failure: [execute] returns, and what it returns
    is, item by item and in order, the records of each item, which depend
    on that item and its index alone.  A failure of one item leaves the
    records of every other item as they are. *)
Theorem NodeB_continue_output (env : Env) (input : list Item) :
  continueOnFail env = true ->
  exists fuel w',
    NodeB.execute env fuel (initialWorld input)
    = Some (Ok [concat (imap (recordsFor env) input)], w').
Proof.
  intros Hcont.
  destruct (NodeB_loop_continue env (S (length input)) 0 (initialWorld input) Hcont)
    as (w' & Hrun & _ & Hrd); [simpl; lia|].
  exists (S (length input)), w'. unfold NodeB.execute. rewrite Hrun, Hrd. done.
Qed.

Lemma NodeB_continue_output_witness :
  continueOnFail (Demo.env true) = true
  /\ exists fuel w',
       NodeB.execute (Demo.env true) fuel (initialWorld [Demo.bare "a"; Demo.bare "b"])
       = Some (Ok [concat (imap (recordsFor (Demo.env true))
                                [Demo.bare "a"; Demo.bare "b"])], w').
Proof.
  split; [reflexivity|].
  apply (NodeB_continue_output (Demo.env true) [Demo.bare "a"; Demo.bare "b"]).
  reflexivity.
Defined.

(** [NodeB], continue-on-failure: the records of an item without binary
    data are one record with the item's own json, the MissingInput error
    and the item's index as [pairedItem]. *)
Theorem NodeB_missing_input_records (env : Env) (i : nat) (it : Item) :
  continueOnFail env = true ->
  getNodeParameter env "operation" i = "transcribe" ->
  getNodeParameter env "audioInputType" i = "binaryFile" ->
  binary it = None ->
  recordsFor env i it = [mkItem (json it) None (Some (MissingInput i)) (Some i)].
Proof.
  intros Hcont Hop Htype Hbin. unfold recordsFor.
  destruct (NodeB_missing_input_record env i it (mkWorld (replicate (S i) it) [] [])
              Hcont Hop Htype) as (w' & _ & -> & _); [|done|done].
  cbn [items]. apply lookup_replicate_2. lia.
Qed.

Lemma NodeB_missing_input_records_witness :
  continueOnFail (Demo.env true) = true
  /\ getNodeParameter (Demo.env true) "operation" 1 = "transcribe"
  /\ getNodeParameter (Demo.env true) "audioInputType" 1 = "binaryFile"
  /\ binary (Demo.bare "b") = None
  /\ recordsFor (Demo.env true) 1 (Demo.bare "b")
     = [mkItem (json (Demo.bare "b")) None (Some (MissingInput 1)) (Some 1)].
Proof.
  repeat (split; [reflexivity|]).
  apply (NodeB_missing_input_records (Demo.env true) 1 (Demo.bare "b")); reflexivity.
Defined.

(** [NodeA], continue-on-failure, with the node's only two parameter
    values: once some input item has no binary data, [execute] never
    returns normally, whatever the other items, the other inputs of the
    node and the collaborators are.  Together with termination (C2) it
    throws. *)
Theorem NodeA_continue_never_returns (env : Env) (input : list Item) (i : nat) (it : Item) :
  continueOnFail env = true ->
  (forall k, getNodeParameter env "operation" k = "transcribe") ->
  (forall k, getNodeParameter env "audioInputType" k = "binaryFile") ->
  input !! i = Some it ->
  binary it = None ->
  forall fuel out w', NodeA.execute env fuel (initialWorld input) <> Some (Ok out, w').
Proof.
  intros Hcont Hop Htype Hit Hbin fuel out w'. unfold NodeA.execute.
  destruct (initTransformers env); [done|].
  destruct (forLoop (NodeA.iteration env) fuel 0 (initialWorld input))
    as [[[[]|e] w1]|] eqn:Hloop; try done.
  exfalso. revert Hloop. apply NodeA_loop_never_returns; try done.
  exists i. split; [lia|]. simpl. by rewrite list_lookup_fmap, Hit, <- Hbin.
Qed.

Lemma NodeA_continue_never_returns_witness :
  continueOnFail (Demo.env true) = true
  /\ (forall k, getNodeParameter (Demo.env true) "operation" k = "transcribe")
  /\ (forall k, getNodeParameter (Demo.env true) "audioInputType" k = "binaryFile")
  /\ [Demo.withAudio "a" "audio/wav" "x"; Demo.bare "b"] !! 1 = Some (Demo.bare "b")
  /\ binary (Demo.bare "b") = None
  /\ forall fuel out w',
       NodeA.execute (Demo.env true) fuel
         (initialWorld [Demo.withAudio "a" "audio/wav" "x"; Demo.bare "b"])
       <> Some (Ok out, w').
Proof.
  repeat (split; [reflexivity|]).
  apply (NodeA_continue_never_returns (Demo.env true)
           [Demo.withAudio "a" "audio/wav" "x"; Demo.bare "b"] 1 (Demo.bare "b"));
    reflexivity.
Defined.

(** * Further properties of the code *)

(** ** The downmix step on whatever the normalizer hands over *)

(** On the samples of any PcmBuffer the step neither throws nor leaves
    [undefined]: it yields a sequence as long as channel 0 (empty without
    channels).  With two channels or more it rewrites the indices below the
    channel count with the mix of channels 0 and 1, and keeps channel 0
    everywhere else. *)
Theorem downmix_of_getSamples (w : PcmBuffer) :
  exists out,
    downmix (getSamples w) = Ok (Some out)
    /\ length out = length (default [] (head (channels w)))
    /\ forall i l, default [] (head (channels w)) !! i = Some l ->
         out !! i = Some (if decide (2 <= numChannels w /\ i < numChannels w)
                          then mix l (sampleAt (default [] (channels w !! 1)) i)
                          else l).
Proof.
  unfold getSamples, numChannels.
  destruct (channels w) as [|c0 [|c1 rest]].
  - exists []. split; [done|]. split; [done|]. intros i l Hl. by destruct i.
  - exists c0. split; [done|]. split; [done|]. simpl. by intros i l Hl.
  - eexists. split; [reflexivity|]. split; [apply mixLoop_length|].
    intros i l Hl. change (c0 !! i = Some l) in Hl.
    change (default [] ((c0 :: c1 :: rest) !! 1)) with c1.
    rewrite mixLoop_lookup, Hl. cbn [length fmap option_fmap option_map].
    repeat case_decide; try lia; done.
Qed.

(** ** [getInitializedTransformers] *)

Lemma calls_settled (importModule : nat -> Outcome Transformers.TransformersEnv)
    (n k : nat) (p : Outcome Transformers.TransformersEnv) :
  Transformers.calls importModule n (Transformers.mkState (Some p) k)
  = (replicate n p, Transformers.mkState (Some p) k).
Proof.
  induction n as [|n IH]; [done|]. simpl. by rewrite IH.
Qed.

(** However often it is called, the function imports the library once:
    every call gets the outcome of that first import, with
    [allowLocalModels] set and [useBrowserCache] cleared when it succeeded.
    A failed import is kept too: it is never tried again. *)
Theorem getInitializedTransformers_imports_once
    (importModule : nat -> Outcome Transformers.TransformersEnv) (n : nat) :
  Transformers.calls importModule (S n) Transformers.initialState
  = (replicate (S n)
       (match importModule 0 with
        | Ok _ => Ok (Transformers.mkTEnv true false)
        | Throw e => Throw e
        end),
     Transformers.mkState
       (Some (match importModule 0 with
              | Ok _ => Ok (Transformers.mkTEnv true false)
              | Throw e => Throw e
              end)) 1).
Proof.
  cbn [Transformers.calls]. unfold Transformers.getInitializedTransformers. simpl.
  by rewrite calls_settled.
Qed.

(** ** Computations that respect a relation between worlds *)

Section Respects.
Context (R : relation World) `{!PreOrder R}.
Local Set Default Proof Using "Type*".

Lemma respects_ret {A} (a : A) : respects R (mret a).
Proof. intros w. simpl. reflexivity. Qed.

Lemma respects_throw {A} (e : Error) : respects R (throw (A := A) e).
Proof. intros w. simpl. reflexivity. Qed.

Lemma respects_liftOutcome {A} (o : Outcome A) : respects R (liftOutcome o).
Proof. intros w. simpl. reflexivity. Qed.

Lemma respects_getItems : respects R getItems.
Proof. intros w. simpl. reflexivity. Qed.

Lemma respects_itemAt (i : nat) : respects R (itemAt i).
Proof. intros w. simpl. reflexivity. Qed.

Lemma respects_bind {A B} (m : M A) (f : A -> M B) :
  respects R m -> (forall a, respects R (f a)) -> respects R (m ≫= f).
Proof.
  intros Hm Hf w. specialize (Hm w). unfold mbind, M_bind.
  destruct (m w) as [[a|e] w1]; simpl in *; [|done].
  etrans; [exact Hm|apply Hf].
Qed.

Lemma respects_tryCatch {A} (m : M A) (h : Error -> M A) :
  respects R m -> (forall e, respects R (h e)) -> respects R (tryCatch m h).
Proof.
  intros Hm Hh w. specialize (Hm w). unfold tryCatch.
  destruct (m w) as [[a|e] w1]; simpl in *; [done|].
  etrans; [exact Hm|apply Hh].
Qed.

(** A loop whose every iteration respects [R] respects it from start to end. *)
Lemma respects_forLoop (body : nat -> M unit) (fuel i : nat) (w w' : World)
    (r : Outcome unit) :
  (forall k, respects R (body k)) ->
  forLoop body fuel i w = Some (r, w') -> R w w'.
Proof.
  intros Hbody. revert i w. induction fuel as [|fuel IH]; intros i w Hrun; [done|].
  simpl in Hrun. case_decide; [|by simplify_eq].
  pose proof (Hbody i w) as Hstep.
  destruct (body i w) as [[u|e] w1]; simpl in Hstep.
  - etrans; [exact Hstep|by eapply IH].
  - by simplify_eq.
Qed.

End Respects.

Ltac respects_step :=
  match goal with
  | |- respects _ (_ ≫= _) => apply (respects_bind _); [|intros ?]
  | |- respects _ (tryCatch _ _) => apply (respects_tryCatch _); [|intros ?]
  | |- respects _ (mret _) => apply (respects_ret _)
  | |- respects _ (throw _) => apply (respects_throw _)
  | |- respects _ (liftOutcome _) => apply (respects_liftOutcome _)
  | |- respects _ getItems => apply (respects_getItems _)
  | |- respects _ (itemAt _) => apply (respects_itemAt _)
  | |- respects _ (match ?x with _ => _ end) => destruct x
  | |- respects _ (let _ := _ in _) => cbv zeta
  end.

(** ** Every run ends

    Either file's [execute] has, on every input and in both modes, one
    outcome, reached with a bounded amount of fuel. *)

Section Ends.
Context (env : Env) (input : list Item).

Lemma NodeA_execute_ends :
  exists fuel0 r w',
    forall fuel, fuel0 <= fuel ->
      NodeA.execute env fuel (initialWorld input) = Some (r, w').
Proof.
  set (fuel0 := S (length input + S (length (otherInputs env)))).
  destruct (forLoop_spec _ _ (NodeA_iteration_spec env) fuel0 0 (initialWorld input))
    as (r & w' & _ & Hrun & _); [simpl; lia|].
  assert (exists x, NodeA.execute env fuel0 (initialWorld input) = Some x) as [[r1 w1] Hx].
  { unfold NodeA.execute. rewrite Hrun. destruct (initTransformers env), r; eauto. }
  exists fuel0, r1, w1. intros fuel Hle. by apply (NodeA_execute_fuel_mono env fuel0).
Qed.

Lemma NodeB_execute_ends :
  exists fuel0 r w',
    forall fuel, fuel0 <= fuel ->
      NodeB.execute env fuel (initialWorld input) = Some (r, w').
Proof.
  set (fuel0 := S (length input)).
  destruct (forLoop_spec _ _ (NodeB_iteration_spec env) fuel0 0 (initialWorld input))
    as (r & w' & _ & Hrun & _); [simpl; lia|].
  assert (exists x, NodeB.execute env fuel0 (initialWorld input) = Some x) as [[r1 w1] Hx].
  { unfold NodeB.execute. rewrite Hrun. destruct r; eauto. }
  exists fuel0, r1, w1. intros fuel Hle. by apply (NodeB_execute_fuel_mono env fuel0).
Qed.

End Ends.

(** ** The items a loop processes *)

Section LoopTrace.
Context (body : nat -> M unit) (bound : nat).
Hypothesis body_spec : IterationSpec body bound.

(** The indices a loop processes are consecutive, from its start up to some
    [n], each processed once; after a normal end [n] is at least the length
    the array had at the start, and after a throw the iteration that threw
    is the last one, [n - 1]. *)
Lemma forLoop_trace (fuel i : nat) (w w' : World) (r : Outcome unit) :
  forLoop body fuel i w = Some (r, w') ->
  exists n evs,
    events w' = events w ++ evs
    /\ i <= n
    /\ (forall j, timesProcessed j evs = if decide (i <= j < n) then 1 else 0)
    /\ match r with
       | Ok _ => length (items w) <= n
       | Throw err => exists k wk wk', n = S k /\ i <= k /\ body k wk = (Throw err, wk')
       end.
Proof using body_spec.
  revert i w. induction fuel as [|fuel IH]; intros i w Hrun; [done|].
  simpl in Hrun. case_decide as Hi.
  2:{ simplify_eq. exists i, []. rewrite app_nil_r.
      split; [done|]. split; [done|]. split; [|lia].
      intros j. rewrite decide_False by lia. done. }
  destruct (body_spec i w) as ((evs1 & Hev1 & Hq1) & Hlen).
  destruct (body i w) as [[[]|e] w1] eqn:Hbody; simpl in *.
  - apply IH in Hrun as (n & evs2 & Hev2 & Hn & Hcount & Hr).
    exists n, (EvGetNodeParameter "operation" i :: evs1 ++ evs2).
    split; [by rewrite Hev2, Hev1, <- (assoc_L (++))|]. split; [lia|]. split.
    + intros j. rewrite timesProcessed_read, timesProcessed_app.
      rewrite (timesProcessed_quiet j evs1), Hcount by done.
      repeat case_decide; lia.
    + destruct r as [u|err]; [|].
      * destruct Hlen as [Hl|[Hl _]]; rewrite Hl in Hr; lia.
      * destruct Hr as (k & wk & wk' & -> & Hk & Hthrow).
        exists k, wk, wk'. split; [done|]. split; [lia|done].
  - simplify_eq. exists (S i), (EvGetNodeParameter "operation" i :: evs1).
    split; [done|]. split; [lia|]. split.
    + intros j. rewrite timesProcessed_read, (timesProcessed_quiet j evs1) by done.
      repeat case_decide; lia.
    + exists i, w, w'. split; [done|]. split; [lia|done].
Qed.

End LoopTrace.

(** ** The calls a run can make *)

Global Instance emitsOnly_preorder (P : Event -> Prop) : PreOrder (emitsOnly P).
Proof.
  split.
  - intros w. exists []. by rewrite app_nil_r.
  - intros w1 w2 w3 (evs1 & Hev1 & HP1) (evs2 & Hev2 & HP2).
    exists (evs1 ++ evs2). split; [|by apply Forall_app].
    by rewrite Hev2, Hev1, (assoc_L (++)).
Qed.

Lemma emitsOnly_emit (P : Event -> Prop) (ev : Event) :
  P ev -> respects (emitsOnly P) (emit ev).
Proof. intros HP w. exists [ev]. split; [done|]. by constructor. Qed.

Lemma emitsOnly_setItems (P : Event -> Prop) (l : list Item) :
  respects (emitsOnly P) (setItems l).
Proof. intros w. exists []. by rewrite app_nil_r. Qed.

Lemma emitsOnly_pushReturnData (P : Event -> Prop) (it : Item) :
  respects (emitsOnly P) (pushReturnData it).
Proof. intros w. exists []. by rewrite app_nil_r. Qed.

Ltac emitsOnly_tac :=
  repeat first
    [ respects_step
    | apply emitsOnly_setItems
    | apply emitsOnly_pushReturnData
    | apply emitsOnly_emit; simpl; first [done | repeat constructor] ].

Lemma NodeA_iteration_calls (env : Env) (i : nat) :
  respects (emitsOnly callOfNodeA) (NodeA.iteration env i).
Proof.
  unfold NodeA.iteration, NodeA.tryBlock, NodeA.catchBlock, NodeA.firstJsonOfInput,
    NodeA.setTranscription, NodeA.audioBufferWav, NodeA.transcode, readParameter,
    logInfo, logError, loadPipeline, callTranscriber, normalizedAudio, normalize.
  emitsOnly_tac.
Qed.

Lemma NodeB_iteration_calls (env : Env) (i : nat) :
  respects (emitsOnly callOfNodeB) (NodeB.iteration env i).
Proof.
  unfold NodeB.iteration, NodeB.tryBlock, NodeB.catchBlock, readParameter,
    logInfo, logError, loadPipeline, callTranscriber, normalizedAudio, normalize.
  emitsOnly_tac.
Qed.

Lemma NodeA_run_calls (env : Env) (input : list Item) (fuel : nat)
    (r : Outcome (list (list Item))) (w' : World) :
  NodeA.execute env fuel (initialWorld input) = Some (r, w') ->
  Forall callOfNodeA (events w').
Proof.
  unfold NodeA.execute. intros Hrun.
  destruct (initTransformers env); [by simplify_eq|].
  destruct (forLoop (NodeA.iteration env) fuel 0 (initialWorld input))
    as [[r0 w0]|] eqn:Hloop; [|done].
  apply (respects_forLoop (emitsOnly callOfNodeA)) in Hloop;
    [|apply NodeA_iteration_calls].
  destruct Hloop as (evs & Hev & HP). simpl in Hev. rewrite <- Hev in HP.
  by destruct r0; simplify_eq.
Qed.

(** Whatever the input, the mode and the collaborators, the run of the
    first file ends, and of the calls it has made to the host's parameters,
    the engine, the wavefile package, the model library and the host's
    helpers this holds: it has read none but the four parameters its
    description declares; each time it started the engine it asked for WAV,
    pcm_s16le, 16000 Hz and one channel; each bit-depth conversion was to
    32-bit float and each sample-rate conversion to 16000 Hz; each pipeline
    it loaded was the speech-recognition one; each time it called the model
    it passed no chunking options; and it never called the host's binary
    buffer helper. *)
Theorem NodeA_calls (env : Env) (input : list Item) :
  exists fuel0 r w',
    (forall fuel, fuel0 <= fuel ->
       NodeA.execute env fuel (initialWorld input) = Some (r, w'))
    /\ Forall callOfNodeA (events w').
Proof.
  destruct (NodeA_execute_ends env input) as (fuel0 & r & w' & Hrun).
  exists fuel0, r, w'. split; [done|].
  by apply (NodeA_run_calls env input fuel0 r w'), Hrun.
Qed.

Lemma NodeB_run_calls (env : Env) (input : list Item) (fuel : nat)
    (r : Outcome (list (list Item))) (w' : World) :
  NodeB.execute env fuel (initialWorld input) = Some (r, w') ->
  Forall callOfNodeB (events w').
Proof.
  unfold NodeB.execute. intros Hrun.
  destruct (forLoop (NodeB.iteration env) fuel 0 (initialWorld input))
    as [[r0 w0]|] eqn:Hloop; [|done].
  apply (respects_forLoop (emitsOnly callOfNodeB)) in Hloop;
    [|apply NodeB_iteration_calls].
  destruct Hloop as (evs & Hev & HP). simpl in Hev. rewrite <- Hev in HP.
  by destruct r0; simplify_eq.
Qed.

(** Whatever the input, the mode and the collaborators, the run of the
    second file ends, and of the calls it has made to the host's
    parameters, the logger, the engine, the wavefile package and the model
    library this holds: it has read none but the four declared parameters;
    it never started the transcoding engine, never called
    [getInputData(itemIndex)] and never logged an error; each bit-depth
    conversion was to 32-bit float and each sample-rate conversion to
    16000 Hz; each pipeline it loaded was the speech-recognition one; and
    each time it called the model it passed a chunk length of 30 and a
    stride of 5 seconds. *)
Theorem NodeB_calls (env : Env) (input : list Item) :
  exists fuel0 r w',
    (forall fuel, fuel0 <= fuel ->
       NodeB.execute env fuel (initialWorld input) = Some (r, w'))
    /\ Forall callOfNodeB (events w').
Proof.
  destruct (NodeB_execute_ends env input) as (fuel0 & r & w' & Hrun).
  exists fuel0, r, w'. split; [done|].
  by apply (NodeB_run_calls env input fuel0 r w'), Hrun.
Qed.

(** ** What [NodeA] does to the input array *)

Global Instance sameButTranscription_preorder : PreOrder sameButTranscription.
Proof.
  split.
  - by intros it.
  - intros it1 it2 it3 (Hb & He & Hp & Hj) (Hb' & He' & Hp' & Hj').
    repeat split; [congruence..|]. intros k Hk. by rewrite Hj', Hj.
Qed.

Lemma isErrorRecord_same (r r' : Item) :
  sameButTranscription r r' -> isErrorRecord r -> isErrorRecord r'.
Proof.
  intros (Hb & He & Hp & _) (Hb' & He' & Hp').
  unfold isErrorRecord. by rewrite Hb, He, Hp.
Qed.

Global Instance itemsGrown_preorder (allowPush : bool) : PreOrder (itemsGrown allowPush).
Proof.
  split.
  - intros w. split; [|done]. exists (items w), [].
    rewrite app_nil_r. split; [done|]. split; [reflexivity|]. split; [constructor|done].
  - intros w1 w2 w3 [(k1 & p1 & Hl2 & Hk1 & Hp1 & Hno1) Hr1]
      [(k2 & p2 & Hl3 & Hk2 & Hp2 & Hno2) Hr2].
    split; [|congruence].
    rewrite Hl2 in Hk2. apply Forall2_app_inv_l in Hk2 as (k2a & k2b & Ha & Hb & ->).
    exists k2a, (k2b ++ p2). repeat split.
    + by rewrite Hl3, (assoc_L (++)).
    + by etrans.
    + apply Forall_app. split; [|done].
      eapply Forall2_Forall_r; [exact Hb|].
      eapply Forall_impl; [exact Hp1|]. intros r Hr r' Hsame. by eapply isErrorRecord_same.
    + intros Hfalse. rewrite (Hno2 Hfalse), app_nil_r.
      rewrite (Hno1 Hfalse) in Hb. by apply Forall2_nil_inv_l in Hb.
Qed.

Lemma itemsGrown_emit (allowPush : bool) (ev : Event) :
  respects (itemsGrown allowPush) (emit ev).
Proof. intros w. simpl. apply (reflexivity (R := itemsGrown allowPush) w). Qed.

Lemma itemsGrown_setTranscription (allowPush : bool) (i : nat) (result : JValue) :
  respects (itemsGrown allowPush) (NodeA.setTranscription i result).
Proof.
  intros w. unfold NodeA.setTranscription. unfold_M. simpl. split; [|done].
  eexists _, []. rewrite app_nil_r.
  split; [reflexivity|]. split; [|split; [constructor|done]].
  apply Forall2_alter_r; [reflexivity|].
  intros x y _ _ (Hb & He & Hp & Hj). repeat split; simpl; try done.
  intros k Hk. rewrite lookup_insert_ne by congruence. by apply Hj.
Qed.

Lemma itemsGrown_catchBlock (env : Env) (i : nat) (e : Error) :
  respects (itemsGrown (continueOnFail env)) (NodeA.catchBlock env i e).
Proof.
  intros w. unfold NodeA.catchBlock, NodeA.firstJsonOfInput. unfold_M.
  destruct (continueOnFail env) eqn:Hcont; simpl;
    [|apply (reflexivity (R := itemsGrown false) w)].
  destruct (match i with 0 => Some (items w) | S k => otherInputs env !! k end)
    as [[|first rest]|]; simpl;
    try apply (reflexivity (R := itemsGrown true) w).
  split; [|done]. exists (items w), [mkItem (json first) None (Some e) (Some i)].
  split; [done|]. split; [reflexivity|]. split; [|done].
  repeat constructor; by eexists.
Qed.

Lemma itemsGrown_iteration (env : Env) (i : nat) :
  respects (itemsGrown (continueOnFail env)) (NodeA.iteration env i).
Proof.
  unfold NodeA.iteration. apply (respects_tryCatch _); [|apply itemsGrown_catchBlock].
  unfold NodeA.tryBlock, NodeA.audioBufferWav, NodeA.transcode, readParameter,
    logInfo, logError, loadPipeline, callTranscriber, normalizedAudio, normalize.
  repeat first [ respects_step | apply itemsGrown_emit | apply itemsGrown_setTranscription ].
Qed.

Lemma NodeA_run_items (env : Env) (input : list Item) (fuel : nat)
    (r : Outcome (list (list Item))) (w' : World) :
  NodeA.execute env fuel (initialWorld input) = Some (r, w') ->
  (exists kept pushed,
     items w' = kept ++ pushed
     /\ Forall2 sameButTranscription input kept
     /\ Forall isErrorRecord pushed
     /\ (continueOnFail env = false -> pushed = []))
  /\ (forall out, r = Ok out -> out = [items w']).
Proof.
  unfold NodeA.execute. intros Hrun.
  destruct (initTransformers env).
  { simplify_eq. split; [|done]. exists input, [].
    rewrite app_nil_r. split; [done|]. split; [reflexivity|]. split; [constructor|done]. }
  destruct (forLoop (NodeA.iteration env) fuel 0 (initialWorld input))
    as [[r0 w0]|] eqn:Hloop; [|done].
  apply (respects_forLoop (itemsGrown (continueOnFail env))) in Hloop;
    [|apply itemsGrown_iteration].
  destruct Hloop as [Hgrown _]. simpl in Hgrown.
  destruct r0; simplify_eq; (split; [exact Hgrown|]); [by intros out [= <-]|done].
Qed.

(** Whatever the run of the first file does and however it ends, the array
    it works on (and returns) starts with the input items, each changed at
    most in the value of "transcription" in its json, in their order;
    whatever follows them is a failure record.  When the run is to abort
    on failure nothing follows them.  What it returns, if it returns, is
    that array. *)
Theorem NodeA_items_invariant (env : Env) (input : list Item) :
  exists fuel0 r w',
    (forall fuel, fuel0 <= fuel ->
       NodeA.execute env fuel (initialWorld input) = Some (r, w'))
    /\ (exists kept pushed,
          items w' = kept ++ pushed
          /\ Forall2 sameButTranscription input kept
          /\ Forall isErrorRecord pushed
          /\ (continueOnFail env = false -> pushed = []))
    /\ (forall out, r = Ok out -> out = [items w']).
Proof.
  destruct (NodeA_execute_ends env input) as (fuel0 & r & w' & Hrun).
  exists fuel0, r, w'. split; [done|].
  by apply (NodeA_run_items env input fuel0 r w'), Hrun.
Qed.

(** ** The second file, item by item *)

(** Two equations with the same left-hand side are merged. *)
Ltac same_lhs :=
  repeat match goal with
         | H1 : ?x = _, H2 : ?x = _ |- _ => rewrite H1 in H2; simplify_eq/=
         end.

Section NodeBItems.
Context (env : Env).
Lemma NodeB_iteration_outcome (i : nat) (it : Item) (w : World) :
  items w !! i = Some it ->
  exists w',
    NodeB.iteration env i w
    = (match transcriptionOfB env i it with
       | Throw e => if continueOnFail env then Ok tt else Throw (rethrow i e)
       | Ok _ => Ok tt
       end, w')
    /\ items w' = items w
    /\ returnData w' = returnData w ++ recordsOfB env i it.
Proof.
  intros Hit.
  unfold NodeB.iteration, NodeB.tryBlock, NodeB.catchBlock, recordsOfB, transcriptionOfB, audioOf,
    obind, normalizedAudio, normalize, readParameter.
  unfold_M. simpl. rewrite Hit.
  repeat (case_match; simplify_eq/=; rewrite ?Hit; same_lhs);
    eexists; (split; [reflexivity|]); (split; [done|]); simpl;
    try (by rewrite ?app_nil_r).
  unfold withTranscription. by repeat f_equal.
Qed.

Lemma rethrow_message (i : nat) (e : Error) :
  rethrow i e = NodeOperationError (errMessage e) i.
Proof. by destruct e. Qed.

Lemma NodeB_loop_outcome (fuel i : nat) (w w' : World) (r : Outcome unit) :
  forLoop (NodeB.iteration env) fuel i w = Some (r, w') ->
  items w' = items w
  /\ match r with
     | Ok _ =>
         returnData w'
         = returnData w ++ concat (imap (fun k => recordsOfB env (i + k)) (drop i (items w)))
         /\ (continueOnFail env = false ->
             forall k it e, i <= k -> items w !! k = Some it ->
               transcriptionOfB env k it <> Throw e)
     | Throw err =>
         continueOnFail env = false
         /\ exists k it e,
              i <= k /\ items w !! k = Some it
              /\ transcriptionOfB env k it = Throw e
              /\ err = NodeOperationError (errMessage e) k
              /\ forall j it' e', i <= j < k -> items w !! j = Some it' ->
                   transcriptionOfB env j it' <> Throw e'
     end.
Proof.
  revert i w. induction fuel as [|fuel IH]; intros i w Hrun; [done|].
  simpl in Hrun. case_decide as Hi.
  2:{ simplify_eq. split; [done|]. split.
      - rewrite drop_ge by lia. simpl. by rewrite app_nil_r.
      - intros _ k it e Hk Hit. apply lookup_lt_Some in Hit. lia. }
  destruct (lookup_lt_is_Some_2 _ _ Hi) as [it Hit].
  destruct (NodeB_iteration_outcome i it w Hit) as (w1 & Hiter & Hitems & Hrd).
  rewrite Hiter in Hrun.
  destruct (transcriptionOfB env i it) as [o|e] eqn:Hout.
  - (* the item did not fail *)
    apply IH in Hrun as [Hitems' Hr]. rewrite Hitems in *.
    split; [done|]. destruct r as [u|err].
    + destruct Hr as [Hrd' Hnone]. split.
      * rewrite Hrd', Hrd, (drop_S _ _ _ Hit). simpl.
        rewrite Nat.add_0_r, <- (assoc_L (++)). do 3 f_equal.
        apply imap_ext. intros k x _. simpl. f_equal. lia.
      * intros Habort k it' e Hk Hit'. destruct (decide (k = i)) as [->|Hne].
        -- simplify_eq. by rewrite Hout.
        -- apply (Hnone Habort); [lia|done].
    + destruct Hr as (Habort & k & it' & e & Hk & Hit' & Hfail & -> & Hfirst).
      split; [done|]. exists k, it', e. repeat split; [lia|done|done|].
      intros j it'' e' Hj Hit''. destruct (decide (j = i)) as [->|Hne].
      * simplify_eq. by rewrite Hout.
      * apply Hfirst; [lia|done].
  - (* the item failed *)
    destruct (continueOnFail env) eqn:Hcont.
    + apply IH in Hrun as [Hitems' Hr]. rewrite Hitems in *.
      split; [done|]. destruct r as [u|err].
      * destruct Hr as [Hrd' _]. split; [|done].
        rewrite Hrd', Hrd, (drop_S _ _ _ Hit). simpl.
        rewrite Nat.add_0_r, <- (assoc_L (++)). do 3 f_equal.
        apply imap_ext. intros k x _. simpl. f_equal. lia.
      * by destruct Hr.
    + simplify_eq. split; [done|]. split; [done|].
      exists i, it, e. split; [done|]. split; [done|]. split; [done|].
      split; [apply rethrow_message|]. intros j it' e' Hj. lia.
Qed.

End NodeBItems.

Section AbortIndex.
Context (env : Env).

(** What an iteration throws when the run is to abort carries the index of
    that iteration. *)
Lemma NodeB_iteration_throws (i : nat) (w w' : World) (err : Error) :
  continueOnFail env = false ->
  NodeB.iteration env i w = (Throw err, w') ->
  exists message, err = NodeOperationError message i.
Proof.
  intros Habort. unfold NodeB.iteration, tryCatch.
  destruct (NodeB.tryBlock env i w) as [[u|e] w1]; [done|].
  unfold NodeB.catchBlock. rewrite Habort. unfold_M.
  intros [= <- <-]. exists (errMessage e). apply rethrow_message.
Qed.

Lemma NodeA_iteration_throws (i : nat) (w w' : World) (err : Error) :
  continueOnFail env = false ->
  NodeA.iteration env i w = (Throw err, w') ->
  exists message, err = NodeOperationError message i.
Proof.
  intros Habort. unfold NodeA.iteration, tryCatch.
  destruct (NodeA.tryBlock env i w) as [[u|e] w1]; [done|].
  unfold NodeA.catchBlock. rewrite Habort. unfold_M.
  intros [= <- <-]. exists (errMessage e). apply rethrow_message.
Qed.

End AbortIndex.

(** The indices a run of the second file processes. *)
Lemma NodeB_run_processed (env : Env) (input : list Item) (fuel : nat) (r : Outcome unit) (w' : World) :
  forLoop (NodeB.iteration env) fuel 0 (initialWorld input) = Some (r, w') ->
  exists n,
    (forall j, timesProcessed j (events w') = if decide (j < n) then 1 else 0)
    /\ match r with
       | Ok _ => length input <= n
       | Throw err =>
           continueOnFail env = false
           /\ exists i it e,
                input !! i = Some it
                /\ transcriptionOfB env i it = Throw e
                /\ (forall j it' e', j < i -> input !! j = Some it' ->
                      transcriptionOfB env j it' <> Throw e')
                /\ err = NodeOperationError (errMessage e) i
                /\ n = S i
       end.
Proof.
  intros Hloop.
  destruct (forLoop_trace _ _ (NodeB_iteration_spec env) _ _ _ _ _ Hloop)
    as (n & evs & Hev & _ & Hcount & Hr).
  simpl in Hev. subst evs. exists n. split.
  { intros j. rewrite Hcount. repeat case_decide; lia. }
  apply NodeB_loop_outcome in Hloop as (_ & Hout).
  destruct r as [u|err]; [done|].
  destruct Hout as (Habort & i & it & e & _ & Hit & Hfail & -> & Hfirst).
  destruct Hr as (k & wk & wk' & -> & _ & Hthrow).
  apply NodeB_iteration_throws in Hthrow as [message [= _ <-]]; [|done].
  split; [done|]. exists i, it, e.
  split; [done|]. split; [done|]. split; [|done].
  intros j it' e' Hj Hit'. apply Hfirst; [lia|done].
Qed.

(** The records the second file emits for an item are a function of the
    collaborators' answers for that item: the item with the transcription
    stored under "transcription" when every step succeeds; nothing when the
    parameters do not ask for a transcription; and, when a step fails, one
    failure record with the item's json, the error of the first failing
    step and the item's index if the run is to continue, nothing if not. *)
Theorem NodeB_records_of_item (env : Env) (i : nat) (it : Item) :
  recordsFor env i it = recordsOfB env i it.
Proof.
  unfold recordsFor.
  destruct (NodeB_iteration_outcome env i it (mkWorld (replicate (S i) it) [] []))
    as (w' & Hiter & _ & Hrd).
  { cbn [items]. apply lookup_replicate_2. lia. }
  rewrite Hiter. cbn [snd]. by rewrite Hrd.
Qed.

(** [execute] of the second file returns whenever no failure is to abort
    the run (the run continues on failure, or no item fails): its output
    is the records of the input items in input order, and the input array
    is as it was. *)
Theorem NodeB_returns (env : Env) (input : list Item) :
  (continueOnFail env = false ->
   forall i it e, input !! i = Some it -> transcriptionOfB env i it <> Throw e) ->
  exists fuel w',
    NodeB.execute env fuel (initialWorld input)
    = Some (Ok [concat (imap (recordsOfB env) input)], w')
    /\ items w' = input.
Proof.
  intros Hnone.
  destruct (NodeB_execute_ends env input) as (fuel & r & w' & Hrun).
  specialize (Hrun fuel (le_n _)). exists fuel, w'.
  revert Hrun. unfold NodeB.execute.
  destruct (forLoop (NodeB.iteration env) fuel 0 (initialWorld input))
    as [[[u|err] w0]|] eqn:Hloop; intros Hrun; simplify_eq.
  - apply NodeB_loop_outcome in Hloop as (Hitems & Hrd & _). simpl in *.
    rewrite drop_0 in Hrd. split; [by rewrite Hrd|done].
  - apply NodeB_loop_outcome in Hloop
      as (_ & Habort & i & it & e & _ & Hit & Hfail & _). simpl in *.
    by destruct (Hnone Habort i it e Hit).
Qed.

(** [execute] of the second file, abort mode, with a failing item: it
    throws at the first input item that fails, a NodeOperationError with
    the message of that item's error and that item's index.  Every item up
    to and including that one has been processed once, no later item has
    been processed at all, and the input array is as it was. *)
Theorem NodeB_throws (env : Env) (input : list Item) (i : nat) (it : Item) (e : Error) :
  continueOnFail env = false ->
  input !! i = Some it ->
  transcriptionOfB env i it = Throw e ->
  (forall j it' e', j < i -> input !! j = Some it' ->
     transcriptionOfB env j it' <> Throw e') ->
  exists fuel w',
    NodeB.execute env fuel (initialWorld input)
    = Some (Throw (NodeOperationError (errMessage e) i), w')
    /\ items w' = input
    /\ forall j, timesProcessed j (events w') = if decide (j <= i) then 1 else 0.
Proof.
  intros Habort Hit Hfail Hfirst.
  destruct (NodeB_execute_ends env input) as (fuel & r & w' & Hrun).
  specialize (Hrun fuel (le_n _)). exists fuel, w'.
  revert Hrun. unfold NodeB.execute.
  destruct (forLoop (NodeB.iteration env) fuel 0 (initialWorld input))
    as [[[u|err] w0]|] eqn:Hloop; intros Hrun; simplify_eq.
  - apply NodeB_loop_outcome in Hloop as (_ & _ & Hnone). simpl in *.
    destruct (Hnone Habort i it e); [lia|done|done].
  - destruct (NodeB_run_processed env input _ _ _ Hloop)
      as (n & Hcount & _ & k & it' & e' & Hit' & Hfail' & Hfirst' & -> & ->).
    apply NodeB_loop_outcome in Hloop as (Hitems & _). simpl in Hitems.
    assert (k = i) as ->.
    { destruct (Nat.lt_trichotomy k i) as [Hlt|[->|Hgt]]; [|done|].
      - by destruct (Hfirst k it' e' Hlt Hit').
      - by destruct (Hfirst' i it e Hgt Hit). }
    rewrite Hit in Hit'. injection Hit' as <-.
    rewrite Hfail in Hfail'. injection Hfail' as <-.
    split; [done|]. split; [done|].
    intros j. rewrite Hcount. repeat case_decide; lia.
Qed.

Lemma concat_imap_singletons {A B} (f : nat -> A -> list B) (g : nat -> A -> B)
    (l : list A) :
  (forall i x, l !! i = Some x -> f i x = [g i x]) ->
  concat (imap f l) = imap g l.
Proof.
  revert f g. induction l as [|x l IH]; intros f g Hfg; [done|]. simpl.
  rewrite (Hfg 0 x eq_refl). simpl. f_equal.
  apply IH. intros i y Hy. apply (Hfg (S i) y Hy).
Qed.

(** The second file, continue-on-failure, with the two parameter values
    the description offers: [execute] returns, and its output has exactly
    one record per input item, in input order; record [i] is either item
    [i] with its transcription or the failure record of item [i]. *)
Theorem NodeB_one_record_per_item (env : Env) (input : list Item) :
  continueOnFail env = true ->
  (forall k, getNodeParameter env "operation" k = "transcribe") ->
  (forall k, getNodeParameter env "audioInputType" k = "binaryFile") ->
  exists fuel records w',
    NodeB.execute env fuel (initialWorld input) = Some (Ok [records], w')
    /\ length records = length input
    /\ forall i it, input !! i = Some it ->
         exists r, records !! i = Some r
           /\ ((exists result, transcriptionOfB env i it = Ok (Some result)
                               /\ r = withTranscription it result)
               \/ (exists e, transcriptionOfB env i it = Throw e
                             /\ r = failureRecord it e i)).
Proof.
  intros Hcont Hop Htype.
  destruct (NodeB_execute_ends env input) as (fuel & r & w' & Hrun).
  specialize (Hrun fuel (le_n _)). pose proof Hrun as Hexec.
  revert Hrun. unfold NodeB.execute.
  destruct (forLoop (NodeB.iteration env) fuel 0 (initialWorld input))
    as [[[u|err] w0]|] eqn:Hloop; intros Hrun; simplify_eq.
  2:{ apply NodeB_loop_outcome in Hloop as (_ & Habort & _). congruence. }
  apply NodeB_loop_outcome in Hloop as (_ & Hrd & _). simpl in Hrd.
  set (record := fun i it =>
         match transcriptionOfB env i it with
         | Ok (Some result) => withTranscription it result
         | Ok None => it
         | Throw e => failureRecord it e i
         end).
  assert (forall i it,
            (exists result, transcriptionOfB env i it = Ok (Some result))
            \/ (exists e, transcriptionOfB env i it = Throw e)) as Hsome.
  { intros i it. unfold transcriptionOfB. rewrite !decide_True by done.
    repeat case_match; unfold obind in *; repeat case_match; simplify_eq; eauto. }
  assert (returnData w' = imap record input) as Hrecords.
  { rewrite Hrd. apply concat_imap_singletons. intros i it _.
    unfold recordsOfB, record. destruct (Hsome i it) as [[res ->]|[e ->]]; [done|].
    by rewrite Hcont. }
  exists fuel, (returnData w'), w'. split; [done|].
  rewrite Hrecords. split; [by rewrite length_imap|].
  intros i it Hit. exists (record i it). split.
  { by rewrite list_lookup_imap, Hit. }
  unfold record. destruct (Hsome i it) as [[res Hres]|[e He]].
  - left. exists res. by rewrite Hres.
  - right. exists e. by rewrite He.
Qed.

(** ** The first file, item by item *)

(** The bytes handed to WAV parsing, as a function of the blob. *)
Lemma alter_as_insert {A} (f : A -> A) (l : list A) (i : nat) (x : A) :
  l !! i = Some x -> alter f i l = <[i := f x]> l.
Proof.
  revert i. induction l as [|y l IH]; intros [|i] Hx; simplify_eq/=; [done|].
  f_equal. by apply IH.
Qed.

Section NodeAItems.
Context (env : Env).

Lemma NodeA_tryBlock_outcome (i : nat) (it : Item) (w : World) :
  items w !! i = Some it ->
  exists w',
    NodeA.tryBlock env i w
    = (match transcriptionOfA env i it with
       | Throw e => Throw e
       | Ok _ => Ok tt
       end, w')
    /\ returnData w' = returnData w
    /\ items w' = <[i := updatedA env i it]> (items w).
Proof.
  intros Hit.
  unfold NodeA.tryBlock, NodeA.setTranscription, NodeA.audioBufferWav, NodeA.transcode,
    updatedA, transcriptionOfA, wavBytesOf, audioOf,
    obind, normalizedAudio, normalize, readParameter.
  unfold_M. simpl. rewrite Hit.
  repeat (case_match; simplify_eq/=; rewrite ?Hit; same_lhs);
    eexists; (split; [reflexivity|]); (split; [done|]); simpl;
    try (by rewrite list_insert_id).
  all: by apply (alter_as_insert (fun it0 => withTranscription it0 _)).
Qed.

(** Where a failure makes the [catch] rethrow, an iteration is its [try]. *)
Lemma NodeA_iteration_abort (i : nat) (it : Item) (w : World) :
  (forall e, transcriptionOfA env i it = Throw e -> continueOnFail env = false) ->
  items w !! i = Some it ->
  exists w',
    NodeA.iteration env i w
    = (match transcriptionOfA env i it with
       | Throw e => Throw (NodeOperationError (errMessage e) i)
       | Ok _ => Ok tt
       end, w')
    /\ returnData w' = returnData w
    /\ items w' = <[i := updatedA env i it]> (items w).
Proof.
  intros Habort Hit.
  destruct (NodeA_tryBlock_outcome i it w Hit) as (w' & Htry & Hrd & Hitems).
  unfold NodeA.iteration, tryCatch. rewrite Htry.
  destruct (transcriptionOfA env i it) as [o|e]; [by exists w'|].
  unfold NodeA.catchBlock. rewrite (Habort e eq_refl). unfold_M. rewrite rethrow_message.
  by exists w'.
Qed.

Lemma NodeA_loop_outcome (fuel i : nat) (w w' : World) (r : Outcome unit) :
  (forall k it e, i <= k -> items w !! k = Some it ->
     transcriptionOfA env k it = Throw e -> continueOnFail env = false) ->
  forLoop (NodeA.iteration env) fuel i w = Some (r, w') ->
  returnData w' = returnData w
  /\ match r with
     | Ok _ =>
         items w'
         = take i (items w) ++ imap (fun k => updatedA env (i + k)) (drop i (items w))
         /\ forall k it e, i <= k -> items w !! k = Some it ->
              transcriptionOfA env k it <> Throw e
     | Throw err =>
         exists k it e,
           i <= k /\ items w !! k = Some it
           /\ transcriptionOfA env k it = Throw e
           /\ err = NodeOperationError (errMessage e) k
           /\ forall j it' e', i <= j < k -> items w !! j = Some it' ->
                transcriptionOfA env j it' <> Throw e'
     end.
Proof.
  revert i w. induction fuel as [|fuel IH]; intros i w Habort Hrun; [done|].
  simpl in Hrun. case_decide as Hi.
  2:{ simplify_eq. split; [done|]. split.
      - rewrite drop_ge, take_ge by lia. simpl. by rewrite app_nil_r.
      - intros k it e Hk Hit. apply lookup_lt_Some in Hit. lia. }
  destruct (lookup_lt_is_Some_2 _ _ Hi) as [it Hit].
  destruct (NodeA_iteration_abort i it w) as (w1 & Hiter & Hrd & Hitems);
    [intros e; by apply Habort|done|].
  rewrite Hiter in Hrun.
  assert (forall k, i < k -> items w1 !! k = items w !! k) as Hlater.
  { intros k Hk. rewrite Hitems. apply list_lookup_insert_ne. lia. }
  destruct (transcriptionOfA env i it) as [o|e] eqn:Hout.
  - apply IH in Hrun as [Hrd' Hr].
    2:{ intros k it' e Hk Hit'. rewrite Hlater in Hit' by lia.
        apply Habort; [lia|done]. }
    split; [congruence|].
    destruct r as [u|err].
    + destruct Hr as [Hitems' Hnone]. split.
      * rewrite Hitems', Hitems.
        rewrite drop_insert_lt, take_insert_lt by lia.
        rewrite (take_S_r _ _ _ Hit), (drop_S _ _ _ Hit). simpl.
        rewrite insert_app_r_alt by (rewrite length_take; lia).
        rewrite length_take, Nat.min_l, Nat.sub_diag by lia. simpl.
        rewrite Nat.add_0_r, <- (assoc_L (++)). simpl. do 2 f_equal.
        apply imap_ext. intros k x _. simpl. f_equal. lia.
      * intros k it' e Hk Hit'. destruct (decide (k = i)) as [->|Hne].
        -- simplify_eq. by rewrite Hout.
        -- apply Hnone; [lia|]. rewrite Hlater by lia. done.
    + destruct Hr as (k & it' & e & Hk & Hit' & Hfail & -> & Hfirst).
      exists k, it', e. split; [lia|]. split; [by rewrite <- Hlater by lia|].
      split; [done|]. split; [done|].
      intros j it'' e' Hj Hit''. destruct (decide (j = i)) as [->|Hne].
      * simplify_eq. by rewrite Hout.
      * apply Hfirst; [lia|]. rewrite Hlater by lia. done.
  - simplify_eq. split; [done|]. exists i, it, e.
    split; [done|]. split; [done|]. split; [done|]. split; [done|].
    intros j it' e' Hj. lia.
Qed.

End NodeAItems.

(** The indices a run of the first file processes, when no failure of an
    item is to be caught and recorded. *)
Lemma NodeA_run_processed (env : Env) (input : list Item) (fuel : nat) (r : Outcome unit) (w' : World) :
  forLoop (NodeA.iteration env) fuel 0 (initialWorld input) = Some (r, w') ->
  exists n,
    (forall j, timesProcessed j (events w') = if decide (j < n) then 1 else 0)
    /\ match r with
       | Ok _ => length input <= n
       | Throw err =>
           continueOnFail env = false ->
           exists i it e,
             input !! i = Some it
             /\ transcriptionOfA env i it = Throw e
             /\ (forall j it' e', j < i -> input !! j = Some it' ->
                   transcriptionOfA env j it' <> Throw e')
             /\ err = NodeOperationError (errMessage e) i
             /\ n = S i
       end.
Proof.
  intros Hloop.
  destruct (forLoop_trace _ _ (NodeA_iteration_spec env) _ _ _ _ _ Hloop)
    as (n & evs & Hev & _ & Hcount & Hr).
  simpl in Hev. subst evs. exists n. split.
  { intros j. rewrite Hcount. repeat case_decide; lia. }
  destruct r as [u|err]; [done|]. intros Habort.
  apply NodeA_loop_outcome in Hloop
    as (_ & i & it & e & _ & Hit & Hfail & -> & Hfirst); [|done].
  destruct Hr as (k & wk & wk' & -> & _ & Hthrow).
  apply NodeA_iteration_throws in Hthrow as [message [= _ <-]]; [|done].
  exists i, it, e.
  split; [done|]. split; [done|]. split; [|done].
  intros j it' e' Hj Hit'. apply Hfirst; [lia|done].
Qed.

(** The first file, either mode: when the library loads and no item
    fails, [execute] returns the input array, item by item, each with its
    transcription stored under "transcription" where one was made; nothing
    is appended to it. *)
Theorem NodeA_returns (env : Env) (input : list Item) :
  initTransformers env = None ->
  (forall i it e, input !! i = Some it -> transcriptionOfA env i it <> Throw e) ->
  exists fuel w',
    NodeA.execute env fuel (initialWorld input)
    = Some (Ok [imap (updatedA env) input], w')
    /\ items w' = imap (updatedA env) input
    /\ returnData w' = [].
Proof.
  intros Hinit Hnone.
  destruct (NodeA_execute_ends env input) as (fuel & r & w' & Hrun).
  specialize (Hrun fuel (le_n _)). exists fuel, w'.
  revert Hrun. unfold NodeA.execute. rewrite Hinit.
  destruct (forLoop (NodeA.iteration env) fuel 0 (initialWorld input))
    as [[[u|err] w0]|] eqn:Hloop; intros Hrun; simplify_eq.
  - apply NodeA_loop_outcome in Hloop as (Hrd & Hitems & _).
    2:{ simpl. intros k it e _ Hit Hfail. by destruct (Hnone k it e Hit). }
    simpl in *. rewrite Hitems. split; [done|]. split; [done|]. done.
  - apply NodeA_loop_outcome in Hloop as (_ & k & it & e & _ & Hit & Hfail & _).
    2:{ simpl. intros k it e _ Hit Hfail. by destruct (Hnone k it e Hit). }
    simpl in *. by destruct (Hnone k it e Hit).
Qed.

(** The first file, abort mode, with a failing item: [execute] throws at
    the first input item that fails, a NodeOperationError with the message
    of that item's error and that item's index.  Every item up to and
    including that one has been processed once and no later item has been
    processed at all. *)
Theorem NodeA_abort_throws (env : Env) (input : list Item)
    (i : nat) (it : Item) (e : Error) :
  continueOnFail env = false ->
  initTransformers env = None ->
  input !! i = Some it ->
  transcriptionOfA env i it = Throw e ->
  (forall j it' e', j < i -> input !! j = Some it' ->
     transcriptionOfA env j it' <> Throw e') ->
  exists fuel w',
    NodeA.execute env fuel (initialWorld input)
    = Some (Throw (NodeOperationError (errMessage e) i), w')
    /\ forall j, timesProcessed j (events w') = if decide (j <= i) then 1 else 0.
Proof.
  intros Habort Hinit Hit Hfail Hfirst.
  destruct (NodeA_execute_ends env input) as (fuel & r & w' & Hrun).
  specialize (Hrun fuel (le_n _)). exists fuel, w'.
  revert Hrun. unfold NodeA.execute. rewrite Hinit.
  destruct (forLoop (NodeA.iteration env) fuel 0 (initialWorld input))
    as [[[u|err] w0]|] eqn:Hloop; intros Hrun; simplify_eq.
  - apply NodeA_loop_outcome in Hloop as (_ & _ & Hnone); [|done].
    simpl in *. destruct (Hnone i it e); [lia|done|done].
  - destruct (NodeA_run_processed env input _ _ _ Hloop) as (n & Hcount & Hr).
    destruct (Hr Habort) as (k & it' & e' & Hit' & Hfail' & Hfirst' & -> & ->).
    assert (k = i) as ->.
    { destruct (Nat.lt_trichotomy k i) as [Hlt|[->|Hgt]]; [|done|].
      - by destruct (Hfirst k it' e' Hlt Hit').
      - by destruct (Hfirst' i it e Hgt Hit). }
    rewrite Hit in Hit'. injection Hit' as <-.
    rewrite Hfail in Hfail'. injection Hfail' as <-.
    split; [done|].
    intros j. rewrite Hcount. repeat case_decide; lia.
Qed.

(** ** Termination and the items a run processes *)

(** C2, amended.  On every finite list of input items and in both
    error-handling modes, [execute] of either file terminates: from some
    amount of fuel on, the run has one and the same result.  The indices it
    has processed are the first [n], each exactly once.  When [execute]
    returns, they include every original input item.  When it throws to
    abort on a failing item, they are the items up to and including the
    first one that fails: the items after it are not processed.  (When the
    library of the first file fails to load, no item is processed.) *)
Theorem execute_terminates (env : Env) (input : list Item) :
  (exists fuel0 r w' n,
     (forall fuel, fuel0 <= fuel ->
        NodeA.execute env fuel (initialWorld input) = Some (r, w'))
     /\ (forall j, timesProcessed j (events w') = if decide (j < n) then 1 else 0)
     /\ (forall out, r = Ok out -> length input <= n)
     /\ (forall err, r = Throw err ->
           match initTransformers env with
           | Some e0 => err = e0 /\ n = 0
           | None =>
               continueOnFail env = false ->
               exists i it e,
                 input !! i = Some it
                 /\ transcriptionOfA env i it = Throw e
                 /\ (forall j it' e', j < i -> input !! j = Some it' ->
                       transcriptionOfA env j it' <> Throw e')
                 /\ err = NodeOperationError (errMessage e) i
                 /\ n = S i
           end))
  /\ (exists fuel0 r w' n,
        (forall fuel, fuel0 <= fuel ->
           NodeB.execute env fuel (initialWorld input) = Some (r, w'))
        /\ (forall j, timesProcessed j (events w') = if decide (j < n) then 1 else 0)
        /\ (forall out, r = Ok out -> length input <= n)
        /\ (forall err, r = Throw err ->
              continueOnFail env = false
              /\ exists i it e,
                   input !! i = Some it
                   /\ transcriptionOfB env i it = Throw e
                   /\ (forall j it' e', j < i -> input !! j = Some it' ->
                         transcriptionOfB env j it' <> Throw e')
                   /\ err = NodeOperationError (errMessage e) i
                   /\ n = S i)).
Proof.
  split.
  - destruct (NodeA_execute_ends env input) as (fuel0 & r & w' & Hrun).
    pose proof (Hrun fuel0 (le_n _)) as Hexec. unfold NodeA.execute in Hexec.
    destruct (initTransformers env) as [e0|] eqn:Hinit.
    { simplify_eq. exists fuel0, (Throw e0), (initialWorld input), 0.
      split; [done|]. split; [|split; [done|]].
      - intros j. by rewrite decide_False by lia.
      - intros err [= <-]. done. }
    destruct (forLoop (NodeA.iteration env) fuel0 0 (initialWorld input))
      as [[r0 w0]|] eqn:Hloop; [|done].
    destruct (NodeA_run_processed env input _ _ _ Hloop) as (n & Hcount & Hr).
    exists fuel0, r, w', n. split; [done|].
    destruct r0 as [u|err0]; simplify_eq; (split; [done|]); (split; [done|]); [done|].
    intros err [= <-]. exact Hr.
  - destruct (NodeB_execute_ends env input) as (fuel0 & r & w' & Hrun).
    pose proof (Hrun fuel0 (le_n _)) as Hexec. unfold NodeB.execute in Hexec.
    destruct (forLoop (NodeB.iteration env) fuel0 0 (initialWorld input))
      as [[r0 w0]|] eqn:Hloop; [|done].
    destruct (NodeB_run_processed env input _ _ _ Hloop) as (n & Hcount & Hr).
    exists fuel0, r, w', n. split; [done|].
    destruct r0 as [u|err0]; simplify_eq; (split; [done|]); (split; [done|]); [done|].
    intros err [= <-]. exact Hr.
Qed.

(** ** The first file: a failure under continue-on-failure *)

Section NodeAFailure.
Context (env : Env).
Hypothesis Hcont : continueOnFail env = true.

(** An iteration whose item fails either throws from the [catch] or
    appends the failure record; the items it found are as they were. *)
Lemma NodeA_iteration_failure (i : nat) (it : Item) (e : Error) (w : World) :
  items w !! i = Some it ->
  transcriptionOfA env i it = Throw e ->
  forall w1, NodeA.iteration env i w = (Ok tt, w1) ->
    exists j, items w1 = items w ++ [mkItem j None (Some e) (Some i)].
Proof using Hcont.
  intros Hit Hfail w1 Hiter.
  destruct (NodeA_tryBlock_outcome env i it w Hit) as (w0 & Htry & _ & Hitems).
  rewrite Hfail in Htry. unfold updatedA in Hitems. rewrite Hfail in Hitems.
  rewrite list_insert_id in Hitems by done.
  unfold NodeA.iteration, tryCatch in Hiter. rewrite Htry in Hiter.
  destruct (NodeA_catchBlock_push env i e w0 w1 Hcont Hiter) as (j & Hpush).
  exists j. by rewrite Hpush, Hitems.
Qed.

(** An iteration whose item does not fail touches that item only. *)
Lemma NodeA_iteration_success (i : nat) (it : Item) (o : option JValue) (w : World) :
  items w !! i = Some it ->
  transcriptionOfA env i it = Ok o ->
  exists w1,
    NodeA.iteration env i w = (Ok tt, w1)
    /\ items w1 = <[i := updatedA env i it]> (items w).
Proof.
  intros Hit Hok.
  destruct (NodeA_tryBlock_outcome env i it w Hit) as (w0 & Htry & _ & Hitems).
  rewrite Hok in Htry. exists w0. split; [|done].
  unfold NodeA.iteration, tryCatch. by rewrite Htry.
Qed.

(** As long as a failing item lies at or after the loop index, the loop
    cannot end normally: when its turn comes the [catch] throws or appends
    a record without binary data, which fails in its turn. *)
Lemma NodeA_loop_failure (fuel i : nat) (w w' : World) :
  (forall k, getNodeParameter env "operation" k = "transcribe") ->
  (forall k, getNodeParameter env "audioInputType" k = "binaryFile") ->
  (exists k it e, i <= k /\ items w !! k = Some it
                  /\ transcriptionOfA env k it = Throw e) ->
  forLoop (NodeA.iteration env) fuel i w <> Some (Ok tt, w').
Proof using Hcont.
  intros Hop Htype. revert i w.
  induction fuel as [|fuel IH]; intros i w (k & it & e & Hik & Hit & Hfail); [done|].
  simpl. pose proof (lookup_lt_Some _ _ _ Hit) as Hk.
  rewrite decide_True by lia.
  destruct (lookup_lt_is_Some_2 (items w) i) as [it0 Hit0]; [lia|].
  destruct (NodeA.iteration env i w) as [[[]|err] w1] eqn:Hiter; [|done].
  apply IH.
  destruct (transcriptionOfA env i it0) as [o|e0] eqn:Hout.
  - destruct (NodeA_iteration_success i it0 o w Hit0 Hout) as (w2 & Hiter' & Hitems).
    rewrite Hiter in Hiter'. injection Hiter' as <-.
    assert (k <> i) as Hne by (intros ->; congruence).
    exists k, it, e. split; [lia|]. split; [|done].
    rewrite Hitems, list_lookup_insert_ne by lia. done.
  - destruct (NodeA_iteration_failure i it0 e0 w Hit0 Hout w1 Hiter) as (j & Hpush).
    exists (length (items w)), (mkItem j None (Some e0) (Some i)),
      (MissingInput (length (items w))).
    split; [lia|]. split.
    + rewrite Hpush. by apply list_lookup_middle.
    + unfold transcriptionOfA. by rewrite !decide_True by done.
Qed.

End NodeAFailure.

(** The first file, continue-on-failure, with the two parameter values the
    description offers: as soon as one input item fails, for whatever
    reason, [execute] does not return; it throws. *)
Theorem NodeA_continue_failure_throws (env : Env) (input : list Item)
    (i : nat) (it : Item) (e : Error) :
  continueOnFail env = true ->
  (forall k, getNodeParameter env "operation" k = "transcribe") ->
  (forall k, getNodeParameter env "audioInputType" k = "binaryFile") ->
  input !! i = Some it ->
  transcriptionOfA env i it = Throw e ->
  exists fuel0 err w',
    (forall fuel, fuel0 <= fuel ->
       NodeA.execute env fuel (initialWorld input) = Some (Throw err, w'))
    /\ forall fuel out w'',
         NodeA.execute env fuel (initialWorld input) <> Some (Ok out, w'').
Proof.
  intros Hcont Hop Htype Hit Hfail.
  assert (forall fuel out w'',
            NodeA.execute env fuel (initialWorld input) <> Some (Ok out, w'')) as Hnever.
  { intros fuel out w''. unfold NodeA.execute.
    destruct (initTransformers env); [done|].
    destruct (forLoop (NodeA.iteration env) fuel 0 (initialWorld input))
      as [[[[]|err] w1]|] eqn:Hloop; try done.
    exfalso. revert Hloop. apply NodeA_loop_failure; try done.
    exists i, it, e. split; [lia|]. by split. }
  destruct (NodeA_execute_ends env input) as (fuel0 & [out|err] & w' & Hrun).
  - by destruct (Hnever fuel0 out w' (Hrun fuel0 (le_n _))).
  - by exists fuel0, err, w'.
Qed.

Lemma imap_id_ext {A} (f : nat -> A -> A) (l : list A) :
  (forall i x, l !! i = Some x -> f i x = x) -> imap f l = l.
Proof.
  revert f. induction l as [|x l IH]; intros f Hf; [done|]. simpl.
  rewrite (Hf 0 x eq_refl). f_equal. apply IH. intros i y Hy. apply (Hf (S i) y Hy).
Qed.

Lemma concat_imap_nil {A B} (f : nat -> A -> list B) (l : list A) :
  (forall i x, f i x = []) -> concat (imap f l) = [].
Proof.
  revert f. induction l as [|x l IH]; intros f Hf; [done|]. simpl.
  rewrite Hf. simpl. apply IH. intros i y. apply Hf.
Qed.

(** When no item has both "operation" = transcribe and "audioInputType" =
    binaryFile, both files return without failing: the first returns the
    input items as they are, the second returns no item at all. *)
Theorem other_operation_is_not_transcribed (env : Env) (input : list Item) :
  initTransformers env = None ->
  (forall k, getNodeParameter env "operation" k <> "transcribe"
             \/ getNodeParameter env "audioInputType" k <> "binaryFile") ->
  exists fuel wA wB,
    NodeA.execute env fuel (initialWorld input) = Some (Ok [input], wA)
    /\ NodeB.execute env fuel (initialWorld input) = Some (Ok [[]], wB).
Proof.
  intros Hinit Hoff.
  assert (forall i it, transcriptionOfA env i it = Ok None) as HoffA.
  { intros i it. unfold transcriptionOfA. repeat case_decide; try done.
    destruct (Hoff i); done. }
  assert (forall i it, transcriptionOfB env i it = Ok None) as HoffB.
  { intros i it. unfold transcriptionOfB. repeat case_decide; try done.
    destruct (Hoff i); done. }
  set (fuel := S (length input + S (length (otherInputs env)))).
  destruct (forLoop_spec _ _ (NodeA_iteration_spec env) fuel 0 (initialWorld input))
    as (rA & wA & _ & HrunA & _); [simpl; lia|].
  destruct (forLoop_spec _ _ (NodeB_iteration_spec env) fuel 0 (initialWorld input))
    as (rB & wB & _ & HrunB & _); [simpl; lia|].
  exists fuel, wA, wB. split.
  - unfold NodeA.execute. rewrite Hinit, HrunA.
    apply NodeA_loop_outcome in HrunA as (_ & Hr).
    2:{ intros k it e _ _. by rewrite HoffA. }
    destruct rA as [u|err].
    + destruct Hr as [-> _]. simpl. rewrite imap_id_ext; [done|].
      intros i x _. unfold updatedA. by rewrite HoffA.
    + destruct Hr as (k & it & e & _ & _ & Hfail & _). by rewrite HoffA in Hfail.
  - unfold NodeB.execute. rewrite HrunB.
    apply NodeB_loop_outcome in HrunB as (_ & Hr).
    destruct rB as [u|err].
    + destruct Hr as [-> _]. simpl. rewrite concat_imap_nil; [done|].
      intros i x. unfold recordsOfB. by rewrite HoffB.
    + destruct Hr as (_ & k & it & e & _ & _ & Hfail & _). by rewrite HoffB in Hfail.
Qed.

(** ** The description and the host *)

(** With a host that hands out, for each [options] parameter, one of the
    values the description offers (either file's), every item index has
    "operation" = transcribe and "audioInputType" = binaryFile, and the
    model is one of MODELS_LIST. *)
Theorem declared_options_select_transcription (env : Env)
    (props : list Description.INodeProperties) :
  props = Description.propertiesA \/ props = Description.propertiesB ->
  hostRespects props env ->
  forall k,
    getNodeParameter env "operation" k = "transcribe"
    /\ getNodeParameter env "audioInputType" k = "binaryFile"
    /\ getNodeParameter env "model" k ∈ Description.MODELS_LIST.
Proof.
  intros Hprops Hhost k.
  assert (Description.operationProperty ∈ props) as Hop
    by (destruct Hprops as [->| ->]; repeat constructor).
  assert (Description.audioInputTypeProperty ∈ props) as Htype
    by (destruct Hprops as [->| ->]; repeat constructor).
  assert (exists d, Description.modelProperty d ∈ props) as [d Hmodel]
    by (destruct Hprops as [->| ->]; eexists; repeat constructor).
  split; [|split].
  - pose proof (Hhost _ Hop eq_refl k) as H. simpl in H.
    by apply list_elem_of_singleton in H.
  - pose proof (Hhost _ Htype eq_refl k) as H. simpl in H.
    by apply list_elem_of_singleton in H.
  - exact (Hhost _ Hmodel eq_refl k).
Qed.

Lemma declared_options_select_transcription_witness :
  (Description.propertiesA = Description.propertiesA
   \/ Description.propertiesA = Description.propertiesB)
  /\ hostRespects Description.propertiesA (Demo.env true)
  /\ forall k,
       getNodeParameter (Demo.env true) "operation" k = "transcribe"
       /\ getNodeParameter (Demo.env true) "audioInputType" k = "binaryFile"
       /\ getNodeParameter (Demo.env true) "model" k ∈ Description.MODELS_LIST.
Proof.
  assert (hostRespects Description.propertiesA (Demo.env true)) as Hhost.
  { intros p Hp Hoptions k. unfold Description.propertiesA in Hp.
    repeat (apply elem_of_cons in Hp as [->|Hp]); try discriminate Hoptions;
      try (by apply elem_of_nil in Hp); vm_compute; repeat constructor. }
  split; [by left|]. split; [exact Hhost|].
  apply (declared_options_select_transcription (Demo.env true) Description.propertiesA);
    [by left|exact Hhost].
Defined.

(** ** Runs of the concrete environment *)

Lemma NodeB_returns_witness :
  (continueOnFail (Demo.env false) = false ->
   forall i it e, [mpegItem; wavItem] !! i = Some it ->
     transcriptionOfB (Demo.env false) i it <> Throw e)
  /\ exists fuel w',
       NodeB.execute (Demo.env false) fuel (initialWorld [mpegItem; wavItem])
       = Some (Ok [concat (imap (recordsOfB (Demo.env false)) [mpegItem; wavItem])], w')
       /\ items w' = [mpegItem; wavItem].
Proof.
  assert (continueOnFail (Demo.env false) = false ->
          forall i it e, [mpegItem; wavItem] !! i = Some it ->
            transcriptionOfB (Demo.env false) i it <> Throw e) as Hnone.
  { intros _ [|[|i]] it e Hit; simpl in Hit; [| |discriminate Hit];
      injection Hit as <-; vm_compute; discriminate. }
  split; [exact Hnone|].
  exact (NodeB_returns (Demo.env false) [mpegItem; wavItem] Hnone).
Defined.

Lemma NodeB_throws_witness :
  continueOnFail (Demo.env false) = false
  /\ [mpegItem; Demo.bare "b"; wavItem] !! 1 = Some (Demo.bare "b")
  /\ transcriptionOfB (Demo.env false) 1 (Demo.bare "b") = Throw (MissingInput 1)
  /\ (forall j it' e', j < 1 -> [mpegItem; Demo.bare "b"; wavItem] !! j = Some it' ->
        transcriptionOfB (Demo.env false) j it' <> Throw e')
  /\ exists fuel w',
       NodeB.execute (Demo.env false) fuel (initialWorld [mpegItem; Demo.bare "b"; wavItem])
       = Some (Throw (NodeOperationError (errMessage (MissingInput 1)) 1), w')
       /\ items w' = [mpegItem; Demo.bare "b"; wavItem]
       /\ forall j, timesProcessed j (events w') = if decide (j <= 1) then 1 else 0.
Proof.
  assert (forall j it' e', j < 1 -> [mpegItem; Demo.bare "b"; wavItem] !! j = Some it' ->
            transcriptionOfB (Demo.env false) j it' <> Throw e') as Hfirst.
  { intros [|j] it' e' Hj Hit; [|lia]. simpl in Hit.
    injection Hit as <-. vm_compute. discriminate. }
  split; [reflexivity|]. split; [reflexivity|]. split; [reflexivity|].
  split; [exact Hfirst|].
  exact (NodeB_throws (Demo.env false) [mpegItem; Demo.bare "b"; wavItem] 1 (Demo.bare "b")
           (MissingInput 1) eq_refl eq_refl eq_refl Hfirst).
Defined.

Lemma NodeB_one_record_per_item_witness :
  continueOnFail (Demo.env true) = true
  /\ (forall k, getNodeParameter (Demo.env true) "operation" k = "transcribe")
  /\ (forall k, getNodeParameter (Demo.env true) "audioInputType" k = "binaryFile")
  /\ exists fuel records w',
       NodeB.execute (Demo.env true) fuel (initialWorld [mpegItem; Demo.bare "b"])
       = Some (Ok [records], w')
       /\ length records = length [mpegItem; Demo.bare "b"]
       /\ forall i it, [mpegItem; Demo.bare "b"] !! i = Some it ->
            exists r, records !! i = Some r
              /\ ((exists result,
                     transcriptionOfB (Demo.env true) i it = Ok (Some result)
                     /\ r = withTranscription it result)
                  \/ (exists e, transcriptionOfB (Demo.env true) i it = Throw e
                                /\ r = failureRecord it e i)).
Proof.
  split; [reflexivity|]. split; [reflexivity|]. split; [reflexivity|].
  exact (NodeB_one_record_per_item (Demo.env true) [mpegItem; Demo.bare "b"]
           eq_refl (fun _ => eq_refl) (fun _ => eq_refl)).
Defined.

Lemma NodeA_returns_witness :
  initTransformers (Demo.env true) = None
  /\ (forall i it e, [mpegItem; wavItem] !! i = Some it ->
        transcriptionOfA (Demo.env true) i it <> Throw e)
  /\ exists fuel w',
       NodeA.execute (Demo.env true) fuel (initialWorld [mpegItem; wavItem])
       = Some (Ok [imap (updatedA (Demo.env true)) [mpegItem; wavItem]], w')
       /\ items w' = imap (updatedA (Demo.env true)) [mpegItem; wavItem]
       /\ returnData w' = [].
Proof.
  assert (forall i it e, [mpegItem; wavItem] !! i = Some it ->
            transcriptionOfA (Demo.env true) i it <> Throw e) as Hnone.
  { intros [|[|i]] it e Hit; simpl in Hit; [| |discriminate Hit];
      injection Hit as <-; vm_compute; discriminate. }
  split; [reflexivity|]. split; [exact Hnone|].
  exact (NodeA_returns (Demo.env true) [mpegItem; wavItem] eq_refl Hnone).
Defined.

Lemma NodeA_abort_throws_witness :
  continueOnFail (Demo.env false) = false
  /\ initTransformers (Demo.env false) = None
  /\ [mpegItem; Demo.bare "b"; wavItem] !! 1 = Some (Demo.bare "b")
  /\ transcriptionOfA (Demo.env false) 1 (Demo.bare "b") = Throw (MissingInput 1)
  /\ (forall j it' e', j < 1 -> [mpegItem; Demo.bare "b"; wavItem] !! j = Some it' ->
        transcriptionOfA (Demo.env false) j it' <> Throw e')
  /\ exists fuel w',
       NodeA.execute (Demo.env false) fuel (initialWorld [mpegItem; Demo.bare "b"; wavItem])
       = Some (Throw (NodeOperationError (errMessage (MissingInput 1)) 1), w')
       /\ forall j, timesProcessed j (events w') = if decide (j <= 1) then 1 else 0.
Proof.
  assert (forall j it' e', j < 1 -> [mpegItem; Demo.bare "b"; wavItem] !! j = Some it' ->
            transcriptionOfA (Demo.env false) j it' <> Throw e') as Hfirst.
  { intros [|j] it' e' Hj Hit; [|lia]. simpl in Hit.
    injection Hit as <-. vm_compute. discriminate. }
  split; [reflexivity|]. split; [reflexivity|]. split; [reflexivity|].
  split; [reflexivity|]. split; [exact Hfirst|].
  exact (NodeA_abort_throws (Demo.env false) [mpegItem; Demo.bare "b"; wavItem] 1 (Demo.bare "b")
           (MissingInput 1) eq_refl eq_refl eq_refl eq_refl Hfirst).
Defined.

Lemma NodeA_continue_failure_throws_witness :
  continueOnFail (Demo.env true) = true
  /\ (forall k, getNodeParameter (Demo.env true) "operation" k = "transcribe")
  /\ (forall k, getNodeParameter (Demo.env true) "audioInputType" k = "binaryFile")
  /\ [wavItem; silentItem] !! 1 = Some silentItem
  /\ transcriptionOfA (Demo.env true) 1 silentItem
     = Throw (ConversionFailed
                ("ffmpeg exited with code 1: "
                 +:+ "pipe:0: Invalid data found when processing input") 1)
  /\ exists fuel0 err w',
       (forall fuel, fuel0 <= fuel ->
          NodeA.execute (Demo.env true) fuel (initialWorld [wavItem; silentItem])
          = Some (Throw err, w'))
       /\ forall fuel out w'',
            NodeA.execute (Demo.env true) fuel (initialWorld [wavItem; silentItem])
            <> Some (Ok out, w'').
Proof.
  split; [reflexivity|]. split; [reflexivity|]. split; [reflexivity|].
  split; [reflexivity|]. split; [reflexivity|].
  exact (NodeA_continue_failure_throws (Demo.env true) [wavItem; silentItem] 1 silentItem
           (ConversionFailed
                ("ffmpeg exited with code 1: "
                 +:+ "pipe:0: Invalid data found when processing input") 1)
           eq_refl (fun _ => eq_refl) (fun _ => eq_refl) eq_refl eq_refl).
Defined.

Lemma other_operation_is_not_transcribed_witness :
  initTransformers idleEnv = None
  /\ (forall k, getNodeParameter idleEnv "operation" k <> "transcribe"
                \/ getNodeParameter idleEnv "audioInputType" k <> "binaryFile")
  /\ exists fuel wA wB,
       NodeA.execute idleEnv fuel (initialWorld [mpegItem; Demo.bare "b"])
       = Some (Ok [[mpegItem; Demo.bare "b"]], wA)
       /\ NodeB.execute idleEnv fuel (initialWorld [mpegItem; Demo.bare "b"])
          = Some (Ok [[]], wB).
Proof.
  split; [reflexivity|].
  assert (forall k : nat, getNodeParameter idleEnv "operation" k <> "transcribe"
                          \/ getNodeParameter idleEnv "audioInputType" k <> "binaryFile")
    as Hoff by (intros k; left; discriminate).
  split; [exact Hoff|].
  exact (other_operation_is_not_transcribed idleEnv [mpegItem; Demo.bare "b"]
           eq_refl Hoff).
Defined.
